(** * Term extraction (pass 1) and micro-fix (pass 2) of the glossary tools

    A shallow embedding of [run_extract_terms.py] and
    [run_microfix_outputs.py], and the properties of the two passes.

    Python values are modelled as follows.
    - A [str] is the list of its code points ([N]); [len] is [length].
    - An [int] is a [Z]; indices that Python allows to be negative stay in [Z].
    - A [dict] whose order is observable ([Counter], a JSON object) is an
      association list with unique keys; a [dict] or [set] only looked up
      is a [gmap] or [gset].
    - An exception is a value of [exn]; code that may raise returns
      [exn + A].
    - The Unicode tables of the interpreter and the tokenizer are not part
      of the repository: they are fields of [UnicodeDB] and a section
      variable. *)

From Stdlib Require Import ZArith NArith List Bool Lia String Ascii Floats.
From Stdlib Require Import Sorting.Sorted Sorting.Permutation.
From stdpp Require Import base decidable option list gmap sets pretty sorting.

#[local] Open Scope Z_scope.
#[local] Open Scope list_scope.

(** ** Strings *)

Abbreviation str := (list N) (only parsing).

Module Utf8.

(** Source literals are written as UTF-8 string literals and decoded to
    code points. *)
Fixpoint decode (bs : list N) : list N :=
  match bs with
  | [] => []
  | b :: r =>
    if (b <? 128)%N then b :: decode r
    else if (b <? 224)%N then
      match r with
      | b1 :: r1 => ((b - 192) * 64 + (b1 - 128))%N :: decode r1
      | _ => []
      end
    else if (b <? 240)%N then
      match r with
      | b1 :: b2 :: r2 =>
        ((b - 224) * 4096 + (b1 - 128) * 64 + (b2 - 128))%N :: decode r2
      | _ => []
      end
    else
      match r with
      | b1 :: b2 :: b3 :: r3 =>
        ((b - 240) * 262144 + (b1 - 128) * 4096 + (b2 - 128) * 64
         + (b3 - 128))%N :: decode r3
      | _ => []
      end
  end.

Fixpoint bytes (s : string) : list N :=
  match s with
  | EmptyString => []
  | String a r => N_of_ascii a :: bytes r
  end.

End Utf8.

Definition u (s : string) : list N := Utf8.decode (Utf8.bytes s).

Definition str_eqb (a b : str) : bool := bool_decide (a = b).

(** [x in xs] for a literal tuple or set of strings. *)
Definition mem (x : str) (xs : list str) : bool := existsb (str_eqb x) xs.

(** [Py_UNICODE_ISSPACE]: what [str.strip()], [str.isspace] and the
    regular expression class [\s] use. *)
Definition isspace (c : N) : bool :=
  ((9 <=? c) && (c <=? 13) || (28 <=? c) && (c <=? 32)
   || (c =? 133) || (c =? 160) || (c =? 5760)
   || (8192 <=? c) && (c <=? 8202)
   || (c =? 8232) || (c =? 8233) || (c =? 8239) || (c =? 8287)
   || (c =? 12288))%N.

(** [Py_UNICODE_ISLINEBREAK]: the line boundaries of [str.splitlines]. *)
Definition islinebreak (c : N) : bool :=
  ((10 <=? c) && (c <=? 13) || (28 <=? c) && (c <=? 30)
   || (c =? 133) || (c =? 8232) || (c =? 8233))%N.

Fixpoint lstrip_by (p : N -> bool) (s : str) : str :=
  match s with
  | c :: r => if p c then lstrip_by p r else s
  | [] => []
  end.

Definition rstrip_by (p : N -> bool) (s : str) : str :=
  rev (lstrip_by p (rev s)).

Definition strip_by (p : N -> bool) (s : str) : str :=
  rstrip_by p (lstrip_by p s).

(** [s.strip()], [s.rstrip()] and [s.strip(chars)]. *)
Definition strip (s : str) : str := strip_by isspace s.
Definition rstrip (s : str) : str := rstrip_by isspace s.
Definition strip_chars (chars : str) (s : str) : str :=
  strip_by (fun c => bool_decide (c ∈ chars)) s.

(** ["".join(parts)] and [sep.join(parts)]. *)
Definition join_empty (parts : list str) : str := concat parts.

Fixpoint join (sep : str) (parts : list str) : str :=
  match parts with
  | [] => []
  | [p] => p
  | p :: rest => p ++ sep ++ join sep rest
  end.

Fixpoint startswith (s pre : str) : bool :=
  match pre, s with
  | [], _ => true
  | p :: pre', c :: s' => (p =? c)%N && startswith s' pre'
  | _ :: _, [] => false
  end.

Definition endswith (s suf : str) : bool := startswith (rev s) (rev suf).

(** [sub in s]. *)
Fixpoint contains (s sub : str) : bool :=
  startswith s sub ||
  match s with
  | [] => false
  | _ :: s' => contains s' sub
  end.

(** [s.count(c)] for a one-character [c]. *)
Definition count_char (s : str) (c : N) : Z :=
  Z.of_nat (length (List.filter (N.eqb c) s)).

(** [len(s)] for a string or a list *)
Definition len {A} (s : list A) : Z := Z.of_nat (length s).

(** Slice bounds as Python adjusts them: a negative bound counts from the
    end, and the result is clipped to [0 .. len]. *)
Definition adjust (n : Z) (i : Z) : Z :=
  let i := if i <? 0 then i + n else i in
  Z.max 0 (Z.min n i).

(** [s[lo:hi]]. *)
Definition slice (s : str) (lo hi : Z) : str :=
  let lo := adjust (len s) lo in
  let hi := adjust (len s) hi in
  firstn (Z.to_nat (hi - lo)) (skipn (Z.to_nat lo) s).

Definition slice_from (s : str) (lo : Z) : str := slice s lo (len s).
Definition slice_to (s : str) (hi : Z) : str := slice s 0 hi.

(** The start positions [i] with [lo <= i], [i + len sub <= hi] and
    [s[i : i + len sub] == sub], in increasing order, for bounds adjusted
    the way [str.find] adjusts them ([lo] is not clipped from above). *)
Definition occurrences (s sub : str) (lo hi : Z) : list Z :=
  let n := len s in
  let hi := adjust n hi in
  let lo := Z.max 0 (if lo <? 0 then lo + n else lo) in
  List.filter (fun i => startswith (skipn (Z.to_nat i) s) sub)
    (map (fun k => lo + Z.of_nat k)
       (seq 0 (Z.to_nat (hi - len sub - lo + 1)))).

(** [s.find(sub, lo, hi)] and [s.rfind(sub, lo, hi)]: [-1] when absent. *)
Definition find_in (s sub : str) (lo hi : Z) : Z :=
  hd (-1) (occurrences s sub lo hi).
Definition rfind_in (s sub : str) (lo hi : Z) : Z :=
  List.last (occurrences s sub lo hi) (-1).
Definition find (s sub : str) : Z := find_in s sub 0 (len s).
Definition find_from (s sub : str) (lo : Z) : Z := find_in s sub lo (len s).

(** [s.split(sep)] for a one-character separator. *)
Fixpoint split_on (sep : N) (s : str) : list str :=
  match s with
  | [] => [[]]
  | c :: r =>
    if (c =? sep)%N then [] :: split_on sep r
    else match split_on sep r with
         | w :: ws => (c :: w) :: ws
         | [] => [[c]]
         end
  end.

(** [s.splitlines()]. [cur] holds the current line, reversed. *)
Fixpoint splitlines_from (cur : str) (s : str) : list str :=
  match s with
  | [] => match cur with [] => [] | _ => [rev cur] end
  | c :: r =>
    if islinebreak c then
      rev cur ::
      (if (c =? 13)%N then
         match r with
         | 10%N :: r' => splitlines_from [] r'
         | _ => splitlines_from [] r
         end
       else splitlines_from [] r)
    else splitlines_from (c :: cur) r
  end.

Definition splitlines (s : str) : list str := splitlines_from [] s.

(** Code point order, the order of [str] comparison. *)
Fixpoint str_ltb (a b : str) : bool :=
  match a, b with
  | [], [] => false
  | [], _ :: _ => true
  | _ :: _, [] => false
  | x :: a', y :: b' => (x <? y)%N || ((x =? y)%N && str_ltb a' b')
  end.

Definition str_leb (a b : str) : bool := negb (str_ltb b a).


(** ** Unicode tables

    Functions of the interpreter's Unicode database that the two scripts
    call. *)
Record UnicodeDB := {
  (** [unicodedata.normalize("NFKC", s)] *)
  NFKC : str -> str;
  (** [s.lower()] *)
  lower : str -> str;
  (** category Nd, the class [\d] of [re] *)
  isdecimal : N -> bool;
  (** [ch.isdigit()] *)
  isdigit : N -> bool;
  (** [ch.isalpha()] *)
  isalpha : N -> bool;
  (** [ch.isalnum()]; [\w] is [isalnum] or underscore *)
  isalnum : N -> bool;
}.

(** ** Regular expressions

    The patterns of the scripts are values of [re]; [run] gives every
    state a match of the pattern can end in. A state is the character
    before the position ([None] at the start of the string) and the rest
    of the subject. *)
Module Re.

Inductive re :=
| Eps
| Cls (p : N -> bool)
| Cat (a b : re)
| Alt (a b : re)
| Star (a : re)
| Bol
| Eol
| WordB (w : N -> bool).

Definition state : Type := option N * str.

Definition shorter (st st' : state) : bool :=
  (length (snd st') <? length (snd st))%nat.

Definition is_edge (w : N -> bool) (st : state) : bool :=
  let before := match fst st with Some c => w c | None => false end in
  let after := match snd st with c :: _ => w c | [] => false end in
  xorb before after.

Fixpoint run (r : re) (st : state) : list state :=
  match r with
  | Eps => [st]
  | Cls p =>
    match snd st with
    | c :: t => if p c then [(Some c, t)] else []
    | [] => []
    end
  | Cat a b => flat_map (run b) (run a st)
  | Alt a b => run a st ++ run b st
  | Star a =>
    (fix loop (fuel : nat) (st : state) : list state :=
       st ::
       match fuel with
       | O => []
       | S k => flat_map (loop k) (List.filter (shorter st) (run a st))
       end) (length (snd st)) st
  | Bol => match fst st with None => [st] | Some _ => [] end
  | Eol =>
    match snd st with
    | [] => [st]
    | [10%N] => [st]
    | _ => []
    end
  | WordB w => if is_edge w st then [st] else []
  end.

Definition at_end (st : state) : bool :=
  match snd st with [] => true | _ => false end.

(** [pattern.fullmatch(s) is not None] *)
Definition fullmatch (r : re) (s : str) : bool :=
  existsb at_end (run r (None, s)).

Fixpoint search_at (r : re) (prev : option N) (s : str) : bool :=
  match run r (prev, s) with
  | _ :: _ => true
  | [] => match s with
          | [] => false
          | c :: t => search_at r (Some c) t
          end
  end.

(** [pattern.search(s) is not None] *)
Definition search (r : re) (s : str) : bool := search_at r None s.

Definition Plus (a : re) : re := Cat a (Star a).
Definition Opt (a : re) : re := Alt a Eps.

Fixpoint Times (n : nat) (a : re) : re :=
  match n with O => Eps | S k => Cat a (Times k a) end.
Fixpoint UpTo (n : nat) (a : re) : re :=
  match n with O => Eps | S k => Opt (Cat a (UpTo k a)) end.

(** [a{m,n}] with [n = m + extra] *)
Definition Rep (m extra : nat) (a : re) : re := Cat (Times m a) (UpTo extra a).

Definition Chr (c : N) : re := Cls (N.eqb c).
Definition OneOf (cs : str) : re := Cls (fun c => bool_decide (c ∈ cs)).
Definition Range (lo hi : N) : re := Cls (fun c => (lo <=? c)%N && (c <=? hi)%N).
Definition Dot : re := Cls (fun c => negb (c =? 10)%N).

Fixpoint Lit (s : str) : re :=
  match s with [] => Eps | c :: r => Cat (Chr c) (Lit r) end.

Fixpoint AnyOf (rs : list re) : re :=
  match rs with
  | [] => Cls (fun _ => false)
  | [r] => r
  | r :: rest => Alt r (AnyOf rest)
  end.

Fixpoint Seq (rs : list re) : re :=
  match rs with
  | [] => Eps
  | [r] => r
  | r :: rest => Cat r (Seq rest)
  end.

End Re.
Import Re.


(** [re.sub(r"[set]+", " ", s)] for a character set [p]; [in_run] says
    that the previous character was in the set. *)
Fixpoint sub_runs (p : N -> bool) (in_run : bool) (s : str) : str :=
  match s with
  | [] => []
  | c :: r =>
    if p c then
      if in_run then sub_runs p true r else 32%N :: sub_runs p true r
    else c :: sub_runs p false r
  end.

(** [re.sub(r"\r\n?", "\n", s)] *)
Fixpoint sub_newlines (s : str) : str :=
  match s with
  | [] => []
  | c :: r =>
    if (c =? 13)%N then
      10%N :: match r with
              | 10%N :: r' => sub_newlines r'
              | _ => sub_newlines r
              end
    else c :: sub_newlines r
  end.

(** [str(n)] for an [int] *)
Definition str_of_int (n : Z) : str := Utf8.bytes (pretty n).

(** [[A-Za-z0-9]] *)
Definition ascii_alnum : re :=
  AnyOf [Range 65 90; Range 97 122; Range 48 57].

(** ** Exceptions and loops *)

Inductive exn :=
| SystemExit (msg : str)
| FileNotFoundError (path : str)
| KeyError (key : str)
| AttributeError
| IndexError
| ValueError
| TypeError
| UnboundLocalError.

#[global] Instance exn_bind : MBind (sum exn) := fun A B k m =>
  match m with
  | inl e => inl e
  | inr a => k a
  end.

(** [for x in xs: s = body(x, s)], where [body] may raise. *)
Fixpoint for_each {A S} (xs : list A) (body : A -> S -> exn + S) (s : S)
  : exn + S :=
  match xs with
  | [] => inr s
  | x :: rest => s' ← body x s; for_each rest body s'
  end.

(** [sorted(xs)] under the order [le] of the sort keys; stable, as
    [sorted] is. *)
Fixpoint insert_sorted {A} (le : A -> A -> bool) (x : A) (l : list A)
  : list A :=
  match l with
  | [] => [x]
  | y :: r => if le x y then x :: l else y :: insert_sorted le x r
  end.

Definition sorted {A} (le : A -> A -> bool) (l : list A) : list A :=
  foldr (insert_sorted le) [] l.

(** [range(0, stop, step)] for [step > 0] *)
Definition range_step (stop step : Z) : list Z :=
  map (fun k => Z.of_nat k * step)
    (seq 0 (Z.to_nat ((stop + step - 1) / step))).

(** [re.match(r"^\d+_(.+)$", dirname)] and its group 1: the longest run
    of [.] after the prefix that ends where [$] holds. The function is
    the same in both scripts. *)
Definition company_name_from_dirname (isdecimal : N -> bool) (dirname : str)
  : str :=
  match run (Seq [Bol; Plus (Cls isdecimal); Chr 95]) (None, dirname) with
  | st :: _ =>
    match sorted (fun a b => (length (snd a) <=? length (snd b))%nat)
            (run (Seq [Plus Dot; Eol]) st) with
    | e :: _ => firstn (length (snd st) - length (snd e)) (snd st)
    | [] => dirname
    end
  | [] => dirname
  end.

(** ** JSON values, as [json.loads] returns them *)

#[local] Set Warnings "-register-all".

Inductive json :=
| JNull
| JBool (b : bool)
| JInt (n : Z)
| JFloat (f : float)
| JStr (s : str)
| JArr (l : list json)
| JObj (o : list (str * json)).

(** [d.get(k)], [d.pop(k, None)] and truthiness. *)
Fixpoint dict_get (k : str) (o : list (str * json)) : option json :=
  match o with
  | [] => None
  | (k', v) :: r => if str_eqb k k' then Some v else dict_get k r
  end.

Definition dict_pop (k : str) (o : list (str * json)) : list (str * json) :=
  List.filter (fun kv => negb (str_eqb k (fst kv))) o.

(** [d[k] is None] *)
Definition is_null (v : option json) : bool :=
  match v with
  | Some JNull => true
  | _ => false
  end.

Definition truthy (v : json) : bool :=
  match v with
  | JNull => false
  | JBool b => b
  | JInt n => negb (n =? 0)
  | JFloat f => negb (PrimFloat.eqb f PrimFloat.zero)
  | JStr s => negb (bool_decide (s = []))
  | JArr l => negb (bool_decide (length l = 0%nat))
  | JObj o => negb (bool_decide (length o = 0%nat))
  end.

(** ** The persisted artifacts

    The files of one entity under [output/]: [wordList/wordList.txt] as
    its text and [metadata/wordList.jsonl] as the values on its lines
    ([json.dumps] and [json.loads] are the library's). [None] is a file
    that does not exist. The work log and the copies under the legacy
    layout are left out. *)
Record Artifacts := {
  wordList_txt : option str;
  wordList_jsonl : option (list json);
}.

(** [output/]: [None] when the directory does not exist, else its
    subdirectories by name. *)
Abbreviation OutputDir := (option (gmap (list N) Artifacts)) (only parsing).

Definition artifacts_of (out : OutputDir) (d : str) : Artifacts :=
  default {| wordList_txt := None; wordList_jsonl := None |}
    (m ← out; m !! d).

Definition write_txt (d : str) (text : str) (out : OutputDir) : OutputDir :=
  Some (<[d := {| wordList_txt := Some text;
                  wordList_jsonl := wordList_jsonl (artifacts_of out d) |}]>
          (default ∅ out)).

Definition write_jsonl (d : str) (items : list json) (out : OutputDir)
  : OutputDir :=
  Some (<[d := {| wordList_txt := wordList_txt (artifacts_of out d);
                  wordList_jsonl := Some items |}]>
          (default ∅ out)).

(** [for d in dirs: step(d)] over the files, stopping at the first
    exception. *)
Fixpoint run_batch {D} (dirs : list D)
    (step : D -> OutputDir -> OutputDir * (exn + unit)) (out : OutputDir)
  : OutputDir * (exn + unit) :=
  match dirs with
  | [] => (out, inr tt)
  | d :: rest =>
    match step d out with
    | (out', inr _) => run_batch rest step out'
    | (out', inl e) => (out', inl e)
    end
  end.

(** ** run_extract_terms.py *)

Module Extract.

Definition MAX_TERMS_PER_COMPANY : Z := 10000.
Definition MAX_TERM_CHARS : Z := 40.
Definition MIN_TERM_CHARS : Z := 2.

Definition STOPWORDS : list str := Eval vm_compute in
  map u ["当社"; "本書"; "重要"; "内容"; "場合"; "以下"; "なお"; "また"; "及び";
         "並びに"; "その他"; "各"; "等"]%string.

Definition CONNECTORS : list str := Eval vm_compute in
  map u ["・"; "-"; "－"; "‐"; "/"; "／"]%string.

(** The argument of [.strip("・-－‐/／")]. *)
Definition CONNECTOR_CHARS : str := Eval vm_compute in u "・-－‐/／".


Record Token := { surface : str; part_of_speech : str }.

Inductive kind := noun | connector.

#[global] Instance kind_eq_dec : EqDecision kind.
Proof. solve_decision. Defined.

Section WithUnicode.

Context (U : UnicodeDB).
(** [TOKENIZER.tokenize] *)
Context (tokenize : str -> list Token).

Definition digit : re := Cls (isdecimal U).

Definition RE_ONLY_DIGITS : re := Seq [Bol; Plus digit; Eol].
Definition RE_ONLY_NUM_PUNCT : re :=
  Seq [Bol; Plus (Alt digit (OneOf (u ",.-–—ー"))); Eol].
Definition RE_ONLY_HIRAGANA : re :=
  Seq [Bol; Plus (Range 12353 12438); Eol].
Definition RE_DATE_LIKE : re :=
  Seq [Bol;
       AnyOf [Seq [Rep 4 0 digit; Lit (u "年"); Rep 1 1 digit; Lit (u "月");
                   Rep 1 1 digit; Lit (u "日")];
              Seq [Rep 4 0 digit; Lit (u "/"); Rep 1 1 digit; Lit (u "/");
                   Rep 1 1 digit];
              Seq [Rep 4 0 digit; Lit (u "-"); Rep 1 1 digit; Lit (u "-");
                   Rep 1 1 digit]];
       Eol].
Definition RE_SECTION_LIKE : re :=
  Seq [Bol;
       AnyOf [Seq [Opt (Lit (u "第")); Plus digit;
                   AnyOf [Lit (u "章"); Lit (u "節"); Lit (u "項"); Lit (u "期")]];
              Seq [Plus digit;
                   AnyOf [Lit (u "章"); Lit (u "節"); Lit (u "項")]]];
       Eol].

Definition _nfkc (text : str) : str := NFKC U text.

Definition _is_termish_surface (surface : str) : bool :=
  if bool_decide (surface = []) then false
  else if mem surface CONNECTORS then true
  else if fullmatch (Plus ascii_alnum) surface then true
  else false.

Definition _is_noun_token (token : Token) : bool :=
  let pos := split_on 44 (part_of_speech token) in
  let pos1 := nth 0 pos [] in
  let pos2 := nth 1 pos [] in
  if negb (str_eqb pos1 (u "名詞")) then false
  else if mem pos2 (map u ["数"; "非自立"; "代名詞"; "接尾"]%string) then false
  else true.

Definition _join_surfaces (surfaces : list str) : str :=
  strip (join_empty surfaces).

(** The inner loop of [flush_segment]: the state is
    [(noun_count, phrase_parts, phrase)]; [phrase] is unbound before the
    first iteration. *)
Definition window_step (segment : list str) (kinds : list kind) (j : nat)
    (st : Z * list str * option str) : exn + (Z * list str * option str) :=
  let '(noun_count, phrase_parts, _) := st in
  match segment !! j, kinds !! j with
  | Some s, Some k =>
    let phrase_parts := phrase_parts ++ [s] in
    let noun_count := if decide (k = noun) then noun_count + 1 else noun_count in
    let phrase := strip_chars CONNECTOR_CHARS (_join_surfaces phrase_parts) in
    inr (noun_count, phrase_parts, Some phrase)
  | _, _ => inl IndexError
  end.

(** One iteration of the outer loop of [flush_segment], at position [i]
    with the pair [(surface, kind)]. *)
Definition flush_at (segment : list str) (kinds : list kind)
    (i : nat) (surface : str) (k : kind) (candidates : list str)
  : exn + list str :=
  let max_tokens := 6%nat in
  let candidates :=
    if bool_decide (k = noun) && negb (mem surface CONNECTORS)
    then candidates ++ [surface] else candidates in
  let stop := Nat.min (length segment) (i + max_tokens) in
  '(noun_count, _, phrase) ←
     for_each (seq i (stop - i)) (window_step segment kinds) (0, [], None);
  match phrase with
  | Some phrase =>
    if (2 <=? noun_count) && negb (bool_decide (phrase = []))
       && (len phrase <=? MAX_TERM_CHARS)
    then inr (candidates ++ [phrase]) else inr candidates
  | None => if 2 <=? noun_count then inl UnboundLocalError else inr candidates
  end.

(** [flush_segment]; [candidates] is the list of the enclosing function.
    [zip(strict=True)] raises once the shorter list is used up. *)
Definition flush_segment (segment : list str) (kinds : list kind)
    (candidates : list str) : exn + list str :=
  if bool_decide (segment = []) then inr candidates
  else
    candidates ←
       for_each (imap (fun i sk => (i, sk)) (zip segment kinds))
         (fun '(i, (surface, k)) => flush_at segment kinds i surface k)
         candidates;
    if bool_decide (length segment = length kinds) then inr candidates
    else inl ValueError.

(** The tokens of [text], chunk by chunk. *)
Definition tokens_of (text : str) : list Token :=
  flat_map (fun offset => tokenize (slice text offset (offset + 10000)))
    (range_step (len text) 10000).

Definition kind_of (token : Token) : option kind :=
  if _is_noun_token token then Some noun
  else if _is_termish_surface (surface token) then
    Some (if fullmatch (Plus ascii_alnum) (surface token) then noun
          else connector)
  else None.

Definition extract_step (token : Token)
    (st : list str * list kind * list str)
  : exn + (list str * list kind * list str) :=
  let '(segment, kinds, candidates) := st in
  match kind_of token with
  | None =>
    candidates ← flush_segment segment kinds candidates;
    inr ([], [], candidates)
  | Some k => inr (segment ++ [surface token], kinds ++ [k], candidates)
  end.

Definition extract_candidates (text : str) : exn + list str :=
  '(segment, kinds, candidates) ←
     for_each (tokens_of text) extract_step ([], [], []);
  flush_segment segment kinds candidates.

Definition _looks_bad (term company : str) : bool :=
  if bool_decide (term = []) then true
  else
    let term := strip term in
    if bool_decide (term = []) then true
    else if (len term <? MIN_TERM_CHARS) || (MAX_TERM_CHARS <? len term) then true
    else if mem term STOPWORDS then true
    else if fullmatch RE_ONLY_DIGITS term then true
    else if fullmatch RE_ONLY_NUM_PUNCT term then true
    else if fullmatch RE_ONLY_HIRAGANA term then true
    else if fullmatch RE_DATE_LIKE term then true
    else if fullmatch RE_SECTION_LIKE term then true
    else if contains (lower U term) (u "http") then true
    else if contains term (u "株式会社") then true
    else
      let company_nfkc := _nfkc company in
      if str_eqb term company_nfkc then true
      else if negb (bool_decide (company_nfkc = []))
              && contains term company_nfkc
              && (len term <=? len company_nfkc + 4) then true
      else if fullmatch (Plus (Cls (fun c => negb (isalnum U c) || (c =? 95)%N)))
                term then true
      else false.


Definition _extract_context (text term : str) : option str :=
  let idx := find text term in
  if idx <? 0 then None
  else
    let left := Z.max 0 (idx - 80) in
    let right := Z.min (len text) (idx + len term + 140) in
    let window := slice text left right in
    let window := strip (sub_runs isspace false window) in
    if bool_decide (window = []) then None
    else
      let before := rfind_in window (u "。") 0 (find window term) in
      let after := find_from window (u "。") (find window term + len term) in
      let window := if negb (before =? -1) then slice_from window (before + 1)
                    else window in
      let window := if negb (after =? -1) then slice_to window (after + 1)
                    else window in
      let window := strip window in
      if len window <? 6 then None
      else if 160 <? len window
           then Some (rstrip (slice_to window 160) ++ u "…")
           else Some window.

(** [any(m in term for m in markers)] *)
Definition any_in (term : str) (markers : list str) : bool :=
  existsb (contains term) markers.

Definition _concept_type (term : str) : str :=
  let metric_markers := map u
    ["高"; "額"; "利益"; "損失"; "収益"; "売上"; "費"; "コスト"; "率"; "比率";
     "件数"; "人数"; "数量"; "単価"; "KPI"; "ROE"; "ROA"; "EBITDA"; "EPS";
     "PER"; "PBR"; "CF"; "FCF"]%string in
  let event_markers := map u
    ["減損"; "買収"; "合併"; "取得"; "売却"; "訴訟"; "計上"; "発生"; "適用"]%string in
  let structure_markers := map u
    ["セグメント"; "方針"; "戦略"; "計画"; "モデル"; "システム"; "プロセス";
     "体制"; "ガバナンス"; "内部統制"]%string in
  let entity_markers := map u
    ["委員会"; "グループ"; "子会社"; "連結子会社"; "部"; "本部"; "室"; "会"]%string in
  if any_in term metric_markers then u "Metric"
  else if any_in term event_markers then u "Event"
  else if any_in term structure_markers then u "Structure"
  else if any_in term entity_markers then u "Entity"
  else u "Other".

Definition _category (term : str) : option str :=
  if any_in term
       (map u ["売上"; "利益"; "収益"; "費用"; "原価"; "営業"; "経常"]%string)
  then Some (u "PL")
  else if any_in term
            (map u ["資産"; "負債"; "純資産"; "のれん"; "株主資本"]%string)
  then Some (u "BS")
  else if contains term (u "キャッシュ") || endswith term (u "CF")
          || contains term (u "キャッシュ・フロー")
  then Some (u "CF")
  else if contains term (u "リスク") then Some (u "Risk")
  else if any_in term
            (map u ["ガバナンス"; "内部統制"; "コンプライアンス"]%string)
  then Some (u "Governance")
  else if any_in term
            (map u ["セグメント"; "KPI"; "事業"; "顧客"; "戦略"]%string)
  then Some (u "Business")
  else None.

Definition _pos (term : str) : str :=
  if fullmatch (Plus ascii_alnum) term then u "名詞"
  else if existsb (isalpha U) term then u "名詞"
  else u "名詞".

Definition _company_name_from_dirname (dirname : str) : str :=
  company_name_from_dirname (isdecimal U) dirname.

(** *** Documents *)

(** A PDF of an entity's folder: its name and the text
    [pdfminer_extract_text] yields for it. *)
Record Pdf := { pdf_name : str; pdf_raw : option str }.

Record PdfInfo := { path : str; pages_total : Z; pages_with_text : Z }.

Definition _clean_text (text : str) : str :=
  let text := _nfkc text in
  let text := map (fun c => if (c =? 160)%N || (c =? 12288)%N then 32%N else c)
                text in
  let text := sub_runs (fun c => (c =? 32)%N || (c =? 9)%N) false text in
  sub_newlines text.

(** The [pdfminer] branch of [extract_pdf_pages_text]. *)
Definition extract_pdf_pages_text (pdf : Pdf) : list str * PdfInfo :=
  let raw_all := default [] (pdf_raw pdf) in
  let pages := map (fun p => strip (_clean_text p)) (split_on 12 raw_all) in
  let pages_text := pages in
  let pages_with_text :=
    len (List.filter (fun p => negb (bool_decide (p = []))) pages_text) in
  (pages_text,
   {| path := pdf_name pdf;
      pages_total := len pages_text;
      pages_with_text := pages_with_text |}).

(** *** The frequency map

    A [Counter] keeps its keys in insertion order. *)
Fixpoint counter_incr (t : str) (counter : list (str * Z)) : list (str * Z) :=
  match counter with
  | [] => [(t, 1)]
  | (k, c) :: r =>
    if str_eqb k t then (k, c + 1) :: r else (k, c) :: counter_incr t r
  end.

(** [counter.most_common(n)]: [sorted(items, key=count, reverse=True)[:n]] *)
Definition most_common (n : Z) (counter : list (str * Z)) : list (str * Z) :=
  firstn (Z.to_nat n) (sorted (fun a b => snd b <=? snd a) counter).

(** The order of the keys [(-kv[1], kv[0])]. *)
Definition rank_le (a b : str * Z) : bool :=
  (- snd a <? - snd b) || ((- snd a =? - snd b) && str_leb (fst a) (fst b)).

(** Lines 416-420 for one candidate of a page. *)
Definition term_step (company page_text raw_term : str)
    (st : list (str * Z) * gmap str str) : list (str * Z) * gmap str str :=
  let '(counter, first_context) := st in
  let term := strip (_nfkc raw_term) in
  let term := strip_chars CONNECTOR_CHARS term in
  if _looks_bad term company then st
  else
    let counter := counter_incr term counter in
    match first_context !! term with
    | Some _ => (counter, first_context)
    | None =>
      match _extract_context page_text term with
      | Some ctx =>
        if bool_decide (ctx = []) then (counter, first_context)
        else (counter, <[term := ctx]> first_context)
      | None => (counter, first_context)
      end
    end.

Definition page_step (company page_text : str)
    (st : list (str * Z) * gmap str str)
  : exn + (list (str * Z) * gmap str str) :=
  if bool_decide (page_text = []) then inr st
  else
    candidates ← extract_candidates page_text;
    inr (fold_left (fun st raw_term => term_step company page_text raw_term st)
           candidates st).

Definition note_no_text (name : str) : str :=
  name ++ u ": テキスト抽出できたページが0でした（スキャンPDFの可能性）。".

Definition note_narrowed (n : Z) : str :=
  u "候補語が " ++ str_of_int n ++ u " 語と多いため、出現2回以上の語に絞り込みました。".

Record Acc := {
  counter : list (str * Z);
  first_context : gmap str str;
  pdf_infos : list PdfInfo;
  notes : list str;
}.

Definition pdf_step (company : str) (pdf : Pdf) (acc : Acc) : exn + Acc :=
  let '(pages_text, info) := extract_pdf_pages_text pdf in
  let pdf_infos := pdf_infos acc ++ [info] in
  if pages_with_text info =? 0 then
    inr {| counter := counter acc; first_context := first_context acc;
           pdf_infos := pdf_infos;
           notes := notes acc ++ [note_no_text (pdf_name pdf)] |}
  else
    '(counter, first_context) ←
       for_each pages_text (page_step company)
         (counter acc, first_context acc);
    inr {| counter := counter; first_context := first_context;
           pdf_infos := pdf_infos; notes := notes acc |}.

(** Lines 422-428: the counter and the notes after the cap check. *)
Definition narrow (counter : list (str * Z)) (notes : list str)
  : exn + (list (str * Z) * list str) :=
  if MAX_TERMS_PER_COMPANY <? len counter then
    match last (most_common MAX_TERMS_PER_COMPANY counter) with
    | None => inl IndexError
    | Some (_, cutoff_count) =>
      if cutoff_count <=? 1 then
        inr (List.filter (fun tc => 2 <=? snd tc) counter,
             notes ++ [note_narrowed (len counter)])
      else inr (counter, notes)
    end
  else inr (counter, notes).

Definition top_terms_of (counter : list (str * Z)) : list str :=
  let terms_sorted := sorted rank_le counter in
  map fst (firstn (Z.to_nat MAX_TERMS_PER_COMPANY) terms_sorted).

Definition make_entry (company : str) (first_context : gmap str str)
    (term : str) : json :=
  let metadata :=
    [(u "pos", JStr (_pos term));
     (u "conceptType", JStr (_concept_type term));
     (u "category", from_option JStr JNull (_category term));
     (u "source", JStr (u "有価証券報告書"));
     (u "company", JStr company)] in
  let metadata :=
    if is_null (dict_get (u "category") metadata)
    then dict_pop (u "category") metadata else metadata in
  let entry :=
    [(u "word", JStr term);
     (u "description", from_option JStr JNull (first_context !! term));
     (u "metadata", JObj metadata)] in
  let entry :=
    if is_null (dict_get (u "description") entry)
    then dict_pop (u "description") entry else entry in
  JObj entry.

(** The dictionary [process_company_dir] returns; [entries] and [stats]
    are [None] where the key is absent, [company_dir] is set by [main]. *)
Record Result := {
  company : str;
  pdfs : list str;
  terms : list str;
  entries : option (list json);
  res_pdf_infos : list PdfInfo;
  stats : option (Z * Z);
  res_notes : list str;
  company_dir : option str;
}.

(** An entity's folder: its name and its [*.pdf] files. *)
Record CompanyDir := { dir_name : str; dir_pdfs : list Pdf }.

Definition process_company_dir (d : CompanyDir) : exn + Result :=
  let company := _company_name_from_dirname (dir_name d) in
  let pdfs := sorted (fun a b => str_leb (pdf_name a) (pdf_name b))
                (dir_pdfs d) in
  if bool_decide (pdfs = []) then
    inr {| company := company; pdfs := []; terms := []; entries := None;
           res_pdf_infos := []; stats := None;
           res_notes := [u "PDFが見つかりませんでした。"];
           company_dir := None |}
  else
    acc ← for_each pdfs (pdf_step company)
            {| counter := []; first_context := ∅; pdf_infos := [];
               notes := [] |};
    '(counter, notes) ← narrow (counter acc) (notes acc);
    let top_terms := top_terms_of counter in
    let entries := map (make_entry company (first_context acc)) top_terms in
    inr {| company := company;
           pdfs := map pdf_name pdfs;
           terms := top_terms;
           entries := Some entries;
           res_pdf_infos := pdf_infos acc;
           stats := Some (len counter, len top_terms);
           res_notes := notes;
           company_dir := None |}.

(** *** Writing the artifacts and the batch *)

Definition write_outputs (result : Result) (out : OutputDir)
  : OutputDir * (exn + unit) :=
  let company_dirname := default (company result) (company_dir result) in
  let out :=
    write_txt company_dirname (join (u "
") (terms result) ++ [10%N]) out in
  match entries result with
  | None => (out, inl (KeyError (u "entries")))
  | Some entries => (write_jsonl company_dirname entries out, inr tt)
  end.

Definition with_company_dir (result : Result) (name : str) : Result :=
  {| company := company result; pdfs := pdfs result; terms := terms result;
     entries := entries result; res_pdf_infos := res_pdf_infos result;
     stats := stats result; res_notes := res_notes result;
     company_dir := Some name |}.

(** The body of the loop of [main], lines 539-541, for the folder [name]
    with the PDFs [files]. *)
Definition main_step (d : str * list Pdf) (out : OutputDir)
  : OutputDir * (exn + unit) :=
  let '(name, files) := d in
  match process_company_dir {| dir_name := name; dir_pdfs := files |} with
  | inl e => (out, inl e)
  | inr result => write_outputs (with_company_dir result name) out
  end.

(** [resources/]: [None] when it does not exist, else its subdirectories
    with their PDFs. *)
Definition main (RESOURCES_DIR : str)
    (resources : option (gmap (list N) (list Pdf))) (out : OutputDir)
  : OutputDir * (exn + unit) :=
  match resources with
  | None =>
    (out, inl (SystemExit (u "resources が見つかりません: " ++ RESOURCES_DIR)))
  | Some dirs =>
    let company_dirs :=
      sorted (fun a b => str_leb (fst a) (fst b)) (map_to_list dirs) in
    if bool_decide (company_dirs = []) then
      (out, inl (SystemExit (u "企業フォルダが見つかりません: " ++ RESOURCES_DIR)))
    else run_batch company_dirs main_step out
  end.

End WithUnicode.

End Extract.

(** ** run_microfix_outputs.py *)

Module Microfix.

Definition GENERIC_STOPWORDS : list str := Eval vm_compute in
  map u ["会社"; "期間"; "事項"; "可能"; "状況"; "方法"; "当該"; "上記"; "記載";
         "提出"; "書類"; "年度"; "月"; "日"; "時点"; "現在"; "当期"; "当社"]%string.

Definition FORM_TERMS : list str := Eval vm_compute in
  map u ["EDINET"; "EDINET提出書類"; "提出書類"; "有価証券報告書";
         "有価証券報告"; "証券報告"]%string.

Record FixStats := {
  words_in : Z;
  words_out : Z;
  jsonl_in : Z;
  jsonl_out : Z;
  desc_dropped : Z;
  words_dropped : Z;
}.

Section WithUnicode.

Context (U : UnicodeDB).

Definition digit : re := Cls (isdecimal U).
Definition word_char (c : N) : bool := isalnum U c || (c =? 95)%N.

Definition RE_EDINET_CODE : re := Seq [Chr 69; Rep 5 0 digit].
Definition RE_HAS_BRACKETS : re := OneOf (u "【】").
Definition RE_ONLY_NUM_PUNCT : re :=
  Seq [Bol; Plus (Alt digit (OneOf (u ",.-–—/"))); Eol].
Definition RE_FOOTNOTE : re :=
  Seq [Bol;
       AnyOf [Seq [Chr 40; Plus digit; Chr 41]; Seq [Plus digit; Chr 41]];
       Eol].
Definition RE_DATE_FRAGMENT : re :=
  AnyOf [Seq [Rep 4 0 digit; Lit (u "年")];
         Seq [Rep 1 1 digit; Lit (u "月"); Rep 0 2 digit; Opt (Lit (u "日"))];
         Seq [Rep 4 0 digit; Lit (u "/"); Rep 1 1 digit; Lit (u "/");
              Rep 1 1 digit];
         Seq [Rep 4 0 digit; Lit (u "-"); Rep 1 1 digit; Lit (u "-");
              Rep 1 1 digit]].
Definition RE_MONTH_LEADING : re :=
  Seq [Bol; Lit (u "月"); Plus digit; Opt (Lit (u "日")); Eol].
Definition RE_MONTH_TRAILING : re := Seq [Bol; Plus digit; Lit (u "月"); Eol].
Definition RE_PAGE_FRACTION : re :=
  Seq [Bol; Plus digit; Star (Cls isspace); Chr 47; Star (Cls isspace);
       Plus digit; Eol].
Definition RE_SECTION : re :=
  Seq [Bol;
       AnyOf [Seq [Opt (Lit (u "第")); Plus digit;
                   AnyOf [Lit (u "章"); Lit (u "節"); Lit (u "項"); Lit (u "期")]];
              Seq [Plus digit;
                   AnyOf [Lit (u "章"); Lit (u "節"); Lit (u "項")]]];
       Eol].
Definition RE_UNIT_FRAGMENT : re :=
  AnyOf (map Lit (map u ["単位"; "百万円"; "千円"; "円"; "株"; "％"; "%"; "回";
                         "人"; "件"; "台"; "社"; "日"; "月"; "年"]%string)).
Definition RE_PARENS : re := OneOf (u "()（）").
Definition RE_PHONE : re :=
  Seq [WordB word_char; Chr 48; Rep 1 3 digit; Chr 45; Rep 1 3 digit; Chr 45;
       Rep 3 1 digit; WordB word_char].
Definition RE_ADDRESS_LIKE : re :=
  Seq [AnyOf [Lit (u "東京都"); Lit (u "北海道");
              Seq [Alt (Lit (u "京都")) (Lit (u "大阪")); Lit (u "府")];
              Seq [Rep 2 1 Dot; Lit (u "県")]];
       Star Dot;
       AnyOf [Lit (u "市"); Lit (u "区"); Lit (u "町"); Lit (u "村")];
       Star Dot;
       AnyOf [Lit (u "丁目"); Lit (u "番"); Lit (u "号");
              Seq [Rep 1 3 digit; Chr 45; Rep 1 3 digit]]].

Definition _company_name_from_dirname (dirname : str) : str :=
  company_name_from_dirname (isdecimal U) dirname.

Definition _is_noisy_word (word company : str) : bool :=
  let w := strip word in
  if bool_decide (w = []) then true
  else if mem w FORM_TERMS then true
  else if mem w GENERIC_STOPWORDS then true
  else if search RE_EDINET_CODE w then true
  else if search RE_HAS_BRACKETS w then true
  else if fullmatch RE_ONLY_NUM_PUNCT w then true
  else if fullmatch RE_FOOTNOTE w then true
  else if fullmatch RE_PAGE_FRACTION w then true
  else if fullmatch RE_SECTION w then true
  else if search RE_DATE_FRAGMENT w then true
  else if fullmatch RE_MONTH_LEADING w || fullmatch RE_MONTH_TRAILING w then true
  else if (contains w (u "(") || contains w (u ")") || contains w (u "（")
           || contains w (u "）"))
          && (negb (count_char w 40 =? count_char w 41)
              || negb (count_char w 65288 =? count_char w 65289)) then true
  else if search RE_PARENS w && search RE_UNIT_FRAGMENT w then true
  else if (endswith w (u ")") || endswith w (u "）"))
          && search RE_UNIT_FRAGMENT w then true
  else if endswith w (u ":") && contains w (u "単位") then true
  else if str_eqb w company then true
  else false.

(** The density test [digits / max(1, len(d)) > 0.35 and len(d) < 120] is
    written on integers: below 120 characters a quotient other than 7/20
    is further from it than the rounding of either side, and 7/20 itself
    rounds to the literal. *)
Definition _is_noisy_description (desc : str) : bool :=
  let d := strip desc in
  if bool_decide (d = []) then true
  else if contains d (u "EDINET提出書類") || contains d (u "【表紙】")
          || contains d (u "【提出") then true
  else if contains d (u "財務局長") || contains d (u "電話番号") then true
  else if search RE_PHONE d then true
  else if contains d (u "【会社名】") || contains d (u "【英訳名】")
          || contains d (u "【代表者") then true
  else if search RE_ADDRESS_LIKE d then true
  else
    let digits := len (List.filter (isdigit U) d) in
    if (7 * Z.max 1 (len d) <? 20 * digits) && (len d <? 120) then true
    else if len d <? 10 then true
    else false.

Definition _load_words (text : str) : list str :=
  map strip
    (List.filter (fun line => negb (bool_decide (strip line = [])))
       (splitlines text)).

Definition _write_words (words : list str) : str :=
  join (u "
") words ++ [10%N].

(** Lines 211-217 for one word; the state is [(keep_words, seen)]. *)
Definition word_step (company : str) (st : list str * gset (list N)) (w : str)
  : list str * gset (list N) :=
  let '(keep_words, seen) := st in
  if _is_noisy_word w company then st
  else if bool_decide (w ∈ seen) then st
  else (keep_words ++ [w], {[w]} ∪ seen).

(** Lines 225-233 for one item; the state is [(items_out, desc_dropped)]. *)
Definition item_step (keep_set : gset (list N)) (item : json)
    (st : list json * Z) : exn + (list json * Z) :=
  let '(items_out, desc_dropped) := st in
  match item with
  | JObj fields =>
    let v := default JNull (dict_get (u "word") fields) in
    let v := if truthy v then v else JStr [] in
    match v with
    | JStr s =>
      let word := strip s in
      if bool_decide (word = []) || negb (bool_decide (word ∈ keep_set))
      then inr st
      else
        match dict_get (u "description") fields with
        | Some (JStr desc) =>
          if _is_noisy_description desc then
            inr (items_out ++ [JObj (dict_pop (u "description") fields)],
                 desc_dropped + 1)
          else inr (items_out ++ [item], desc_dropped)
        | _ => inr (items_out ++ [item], desc_dropped)
        end
    | _ => inl AttributeError
    end
  | _ => inl AttributeError
  end.

(** Lines 237-240 for one item. *)
Definition index_step (item : json) (by_word : gmap (list N) json)
  : exn + gmap (list N) json :=
  match item with
  | JObj fields =>
    match dict_get (u "word") fields with
    | Some (JStr w) =>
      match by_word !! w with
      | None => inr (<[w := item]> by_word)
      | Some _ => inr by_word
      end
    | Some _ => inl TypeError
    | None => inl (KeyError (u "word"))
    end
  | _ => inl TypeError
  end.

(** [microfix_company] on the files of the directory [dirname] of
    [OUTPUT_DIR]. *)
Definition microfix_company (OUTPUT_DIR dirname : str) (files : Artifacts)
  : exn + (Artifacts * FixStats) :=
  let company := _company_name_from_dirname dirname in
  let wordlist_path := OUTPUT_DIR ++ u "/" ++ dirname ++ u "/wordList/wordList.txt" in
  let jsonl_path := OUTPUT_DIR ++ u "/" ++ dirname ++ u "/metadata/wordList.jsonl" in
  match wordList_txt files with
  | None => inl (FileNotFoundError wordlist_path)
  | Some text =>
    match wordList_jsonl files with
    | None => inl (FileNotFoundError jsonl_path)
    | Some items_in =>
      let words_in := _load_words text in
      let '(keep_words, _) :=
        fold_left (word_step company) words_in ([], ∅) in
      let keep_set : gset (list N) := list_to_set keep_words in
      '(items_out, desc_dropped) ←
         for_each items_in (item_step keep_set) ([], 0);
      by_word ← for_each items_out index_step ∅;
      let items_out_ordered := omap (fun w => by_word !! w) keep_words in
      let removed := len words_in - len keep_words in
      inr ({| wordList_txt := Some (_write_words keep_words);
              wordList_jsonl := Some items_out_ordered |},
           {| words_in := len words_in;
              words_out := len keep_words;
              jsonl_in := len items_in;
              jsonl_out := len items_out_ordered;
              desc_dropped := desc_dropped;
              words_dropped := removed |})
    end
  end.

(** The body of the loop of [main], line 289, for the directory [name]. *)
Definition main_step (OUTPUT_DIR : str) (d : str * Artifacts)
    (out : OutputDir) : OutputDir * (exn + unit) :=
  let '(name, _) := d in
  match microfix_company OUTPUT_DIR name (artifacts_of out name) with
  | inl e => (out, inl e)
  | inr (files, _) => (Some (<[name := files]> (default ∅ out)), inr tt)
  end.

Definition main (OUTPUT_DIR : str) (out : OutputDir)
  : OutputDir * (exn + unit) :=
  match out with
  | None => (out, inl (SystemExit (u "output が見つかりません: " ++ OUTPUT_DIR)))
  | Some dirs =>
    let company_dirs :=
      sorted (fun a b => str_leb (fst a) (fst b)) (map_to_list dirs) in
    if bool_decide (company_dirs = []) then
      (out, inl (SystemExit (u "企業ディレクトリがありません: " ++ OUTPUT_DIR)))
    else run_batch company_dirs (main_step OUTPUT_DIR) out
  end.

End WithUnicode.

End Microfix.

(** ** Sample instances

    Tables that agree with the interpreter's on ASCII, kana and the CJK
    unified ideographs, and a tokenizer given by the token list of each
    text; they instantiate the closed examples. *)

Definition sample_db : UnicodeDB := {|
  NFKC := id;
  lower := map (fun c => if (65 <=? c)%N && (c <=? 90)%N then (c + 32)%N else c);
  isdecimal := fun c => (48 <=? c)%N && (c <=? 57)%N;
  isdigit := fun c => (48 <=? c)%N && (c <=? 57)%N;
  isalpha := fun c =>
    (65 <=? c)%N && (c <=? 90)%N || (97 <=? c)%N && (c <=? 122)%N
    || (12353 <=? c)%N && (c <=? 12438)%N
    || (12449 <=? c)%N && (c <=? 12538)%N || (c =? 12540)%N
    || (19968 <=? c)%N && (c <=? 40959)%N;
  isalnum := fun c =>
    (48 <=? c)%N && (c <=? 57)%N
    || (65 <=? c)%N && (c <=? 90)%N || (97 <=? c)%N && (c <=? 122)%N
    || (12353 <=? c)%N && (c <=? 12438)%N
    || (12449 <=? c)%N && (c <=? 12538)%N || (c =? 12540)%N
    || (19968 <=? c)%N && (c <=? 40959)%N;
|}.

Definition tok (s pos : string) : Extract.Token :=
  {| Extract.surface := u s; Extract.part_of_speech := u pos |}.

Definition table_tokenizer (table : list (str * list Extract.Token))
    (text : str) : list Extract.Token :=
  default [] (snd <$> List.find (fun e => str_eqb text (fst e)) table).

(** * Properties *)

(** ** Strings *)

Section StringFacts.

Definition head_ok (p : N -> bool) (s : str) : Prop :=
  match s with
  | c :: _ => p c = false
  | [] => True
  end.

(** Nothing to strip at either end. *)
Definition stripped (p : N -> bool) (s : str) : Prop :=
  head_ok p s /\ head_ok p (rev s).

Lemma lstrip_by_suffix p s :
  exists pre, s = pre ++ lstrip_by p s.
Proof.
  induction s as [|c s [pre IH]]; simpl.
  - exists []. reflexivity.
  - destruct (p c).
    + exists (c :: pre). simpl. congruence.
    + exists []. reflexivity.
Qed.

Lemma lstrip_by_head_ok p s : head_ok p (lstrip_by p s).
Proof.
  induction s as [|c s IH]; simpl; [exact I|].
  destruct (p c) eqn:E; [exact IH | exact E].
Qed.

Lemma lstrip_by_id p s : head_ok p s -> lstrip_by p s = s.
Proof.
  destruct s as [|c s]; simpl; [reflexivity|].
  intros ->. reflexivity.
Qed.

Lemma strip_by_stripped p s : stripped p (strip_by p s).
Proof.
  unfold strip_by, rstrip_by, stripped.
  set (a := lstrip_by p s).
  assert (Ha : head_ok p a) by apply lstrip_by_head_ok.
  destruct (lstrip_by_suffix p (rev a)) as [pre Hpre].
  set (b := lstrip_by p (rev a)) in *.
  split.
  - assert (Hrev : a = rev b ++ rev pre).
    { rewrite <- rev_app_distr, <- Hpre, rev_involutive. reflexivity. }
    destruct (rev b) as [|c r] eqn:E; simpl; [exact I|].
    rewrite Hrev in Ha. exact Ha.
  - rewrite rev_involutive. apply lstrip_by_head_ok.
Qed.

Lemma stripped_strip_by p s : stripped p s -> strip_by p s = s.
Proof.
  intros [H1 H2]. unfold strip_by, rstrip_by.
  rewrite (lstrip_by_id p s H1), (lstrip_by_id p (rev s) H2).
  apply rev_involutive.
Qed.

Lemma strip_by_idem p s : strip_by p (strip_by p s) = strip_by p s.
Proof. apply stripped_strip_by, strip_by_stripped. Qed.

Lemma strip_idem s : strip (strip s) = strip s.
Proof. apply strip_by_idem. Qed.

Lemma lstrip_by_Forall (P : N -> Prop) p s :
  Forall P s -> Forall P (lstrip_by p s).
Proof.
  intros H. destruct (lstrip_by_suffix p s) as [pre Hpre].
  rewrite Hpre in H. apply Forall_app in H. tauto.
Qed.

Lemma strip_by_Forall (P : N -> Prop) p s :
  Forall P s -> Forall P (strip_by p s).
Proof.
  intros H. unfold strip_by, rstrip_by.
  apply Forall_rev, lstrip_by_Forall, Forall_rev, lstrip_by_Forall, H.
Qed.

Lemma islinebreak_isspace c : islinebreak c = true -> isspace c = true.
Proof.
  unfold islinebreak, isspace.
  rewrite !orb_true_iff, !andb_true_iff, !N.leb_le, !N.eqb_eq. lia.
Qed.

Definition no_linebreak (s : str) : Prop :=
  Forall (fun c => islinebreak c = false) s.

Lemma splitlines_from_no_linebreak s :
  forall cur, no_linebreak cur ->
    Forall no_linebreak (splitlines_from cur s).
Proof.
  assert (H : forall n s, (length s <= n)%nat -> forall cur,
             no_linebreak cur -> Forall no_linebreak (splitlines_from cur s)).
  { clear s. induction n as [|n IH]; intros s Hn cur Hcur.
    - destruct s; [|simpl in Hn; lia]. simpl.
      destruct cur; constructor; [|constructor].
      apply Forall_rev. exact Hcur.
    - destruct s as [|c r]; simpl.
      + destruct cur; constructor; [|constructor].
        apply Forall_rev. exact Hcur.
      + simpl in Hn. destruct (islinebreak c) eqn:Ec.
        * constructor; [apply Forall_rev; exact Hcur|].
          destruct (c =? 13)%N.
          -- destruct r as [|c' r']; [apply IH; [simpl; lia|constructor]|].
             destruct (c' =? 10)%N eqn:E10.
             ++ apply N.eqb_eq in E10. subst c'.
                apply IH; [simpl in *; lia | constructor].
             ++ assert (Hc' : c' <> 10%N) by (intros ->; discriminate).
                assert (Hgo : Forall no_linebreak (splitlines_from [] (c' :: r')))
                  by (apply IH; [simpl in *; lia | constructor]).
                destruct c' as [|[?|?|]]; try exact Hgo.
                all: repeat match goal with
                            | p : positive |- _ => destruct p; try exact Hgo
                            end.
                all: try congruence.
          -- apply IH; [lia | constructor].
        * apply IH; [lia|]. constructor; assumption. }
  intros cur. apply (H (length s) s). lia.
Qed.

Lemma splitlines_from_line w :
  forall cur rest, no_linebreak w ->
    splitlines_from cur (w ++ 10%N :: rest)
    = (rev cur ++ w) :: splitlines_from [] rest.
Proof.
  induction w as [|c w IH]; intros cur rest Hw; simpl.
  - rewrite app_nil_r. reflexivity.
  - inversion Hw as [|? ? Hc Hw']; subst. rewrite Hc.
    rewrite IH by assumption. simpl. rewrite <- app_assoc. reflexivity.
Qed.

Lemma splitlines_join ws :
  ws <> [] -> Forall no_linebreak ws ->
  splitlines (join [10%N] ws ++ [10%N]) = ws.
Proof.
  unfold splitlines.
  induction ws as [|w ws IH]; intros Hne Hws; [congruence|].
  inversion Hws as [|? ? Hw Hws']; subst.
  destruct ws as [|w2 ws].
  - simpl. rewrite splitlines_from_line by assumption. reflexivity.
  - change (join [10%N] (w :: w2 :: ws)) with (w ++ [10%N] ++ join [10%N] (w2 :: ws)).
    rewrite <- !app_assoc. simpl app at 2.
    rewrite splitlines_from_line by assumption. simpl rev. simpl app at 1.
    f_equal. apply IH; [discriminate | assumption].
Qed.

(** A word as [_load_words] returns it. *)
Definition clean (w : str) : Prop :=
  w <> [] /\ strip w = w /\ no_linebreak w.

Lemma load_words_clean text : Forall clean (Microfix._load_words text).
Proof.
  unfold Microfix._load_words. apply List.Forall_forall. intros w Hw.
  apply in_map_iff in Hw. destruct Hw as [line [<- Hline]].
  apply filter_In in Hline. destruct Hline as [Hin Hne].
  repeat split.
  - intros E. rewrite E in Hne. discriminate.
  - apply strip_idem.
  - apply strip_by_Forall.
    pose proof (splitlines_from_no_linebreak text [] (List.Forall_nil _)) as H.
    rewrite List.Forall_forall in H. apply H. exact Hin.
Qed.

Lemma load_write_words ws :
  Forall clean ws -> Microfix._load_words (Microfix._write_words ws) = ws.
Proof.
  intros Hws. destruct ws as [|w ws]; [reflexivity|].
  unfold Microfix._load_words, Microfix._write_words.
  change (u "
") with [10%N].
  rewrite splitlines_join.
  - induction Hws as [|x l [Hx [Hs _]] _ IH]; [reflexivity|].
    simpl. rewrite Hs, (bool_decide_eq_false_2 _ Hx). simpl.
    rewrite Hs, IH. reflexivity.
  - discriminate.
  - eapply List.Forall_impl; [|exact Hws]. intros x [_ [_ H]]. exact H.
Qed.







End StringFacts.

(** ** Loops that may raise *)

Lemma bind_inr {A B} (a : A) (k : A -> exn + B) : (inr a ≫= k) = k a.
Proof. reflexivity. Qed.

Lemma bind_inl {A B} (e : exn) (k : A -> exn + B) : (inl e ≫= k) = inl e.
Proof. reflexivity. Qed.

Lemma bind_inr_inv {A B} (m : exn + A) (k : A -> exn + B) b :
  (m ≫= k) = inr b -> exists a, m = inr a /\ k a = inr b.
Proof. destruct m as [e|a]; [discriminate|]. intros H. exists a. auto. Qed.

Lemma for_each_nil {A S} (body : A -> S -> exn + S) s :
  for_each [] body s = inr s.
Proof. reflexivity. Qed.

Lemma for_each_cons {A S} x xs (body : A -> S -> exn + S) s :
  for_each (x :: xs) body s = (body x s ≫= for_each xs body).
Proof. reflexivity. Qed.

Lemma for_each_app {A S} xs ys (body : A -> S -> exn + S) s :
  for_each (xs ++ ys) body s = (for_each xs body s ≫= for_each ys body).
Proof.
  revert s. induction xs as [|x xs IH]; intros s; [reflexivity|].
  simpl app. rewrite !for_each_cons.
  destruct (body x s) as [e|s']; [reflexivity|].
  rewrite !bind_inr. apply IH.
Qed.

(** A loop whose body never raises is a left fold. *)
Lemma for_each_pure {A S} (f : A -> S -> S) xs s :
  for_each xs (fun x s => inr (f x s)) s
  = inr (fold_left (fun s x => f x s) xs s).
Proof.
  revert s. induction xs as [|x xs IH]; intros s; [reflexivity|].
  rewrite for_each_cons, bind_inr. apply IH.
Qed.

(** ** Sorting *)

Section SortFacts.

Context {A : Type} (le : A -> A -> bool).

Lemma insert_sorted_perm x l : Permutation (insert_sorted le x l) (x :: l).
Proof.
  induction l as [|y l IH]; simpl; [reflexivity|].
  destruct (le x y); [reflexivity|].
  rewrite IH. apply perm_swap.
Qed.

Lemma sorted_perm l : Permutation (sorted le l) l.
Proof.
  induction l as [|x l IH]; simpl; [reflexivity|].
  unfold sorted in *. simpl. rewrite insert_sorted_perm, IH. reflexivity.
Qed.



Hypothesis le_total : forall a b, le a b = true \/ le b a = true.
Hypothesis le_trans : forall a b c,
  le a b = true -> le b c = true -> le a c = true.

Lemma insert_sorted_strongly x l :
  StronglySorted (fun a b => le a b = true) l ->
  StronglySorted (fun a b => le a b = true) (insert_sorted le x l).
Proof.
  induction 1 as [|y l Hl IH Hy]; simpl.
  - constructor; constructor.
  - destruct (le x y) eqn:E.
    + constructor; [constructor; assumption|].
      constructor; [exact E|].
      eapply List.Forall_impl; [|exact Hy]. intros z Hz. eapply le_trans; eassumption.
    + constructor; [exact IH|].
      eapply Permutation_Forall; [symmetry; apply insert_sorted_perm|].
      constructor; [|exact Hy].
      destruct (le_total x y); congruence.
Qed.

Lemma sorted_strongly l :
  StronglySorted (fun a b => le a b = true) (sorted le l).
Proof.
  induction l as [|x l IH]; [constructor|].
  apply insert_sorted_strongly. exact IH.
Qed.

End SortFacts.

(** ** The micro-fix pass in closed form *)

Section MicrofixFacts.

Context (U : UnicodeDB).

(** The [word] of a record, when it is a string. *)
Definition word_of (item : json) : option str :=
  match item with
  | JObj fields =>
    match dict_get (u "word") fields with
    | Some (JStr w) => Some w
    | _ => None
    end
  | _ => None
  end.

(** What lines 228-233 append for an item that is kept. *)
Definition refine_item (item : json) : json :=
  match item with
  | JObj fields =>
    match dict_get (u "description") fields with
    | Some (JStr desc) =>
      if Microfix._is_noisy_description U desc
      then JObj (dict_pop (u "description") fields) else item
    | _ => item
    end
  | _ => item
  end.

(** The test of line 226. *)
Definition survives (keep_set : gset (list N)) (item : json) : bool :=
  match word_of item with
  | Some s => negb (bool_decide (strip s = [])) && bool_decide (strip s ∈ keep_set)
  | None => false
  end.

Definition keep_words_of (company : str) (words_in : list str) : list str :=
  fst (fold_left (Microfix.word_step U company) words_in ([], ∅)).

Lemma strip_nil : strip [] = [].
Proof. reflexivity. Qed.

Lemma dict_get_pop_ne k k' fields :
  k <> k' -> dict_get k (dict_pop k' fields) = dict_get k fields.
Proof.
  intros Hne. induction fields as [|[k0 v] fields IH]; simpl; [reflexivity|].
  unfold str_eqb in *.
  destruct (decide (k' = k0)) as [->|Hk].
  - rewrite bool_decide_eq_true_2 by reflexivity. simpl.
    rewrite bool_decide_eq_false_2 by assumption. exact IH.
  - rewrite (bool_decide_eq_false_2 _ Hk). simpl. unfold str_eqb.
    rewrite IH. reflexivity.
Qed.

Lemma dict_get_pop_eq k fields : dict_get k (dict_pop k fields) = None.
Proof.
  induction fields as [|[k0 v] fields IH]; simpl; [reflexivity|].
  unfold str_eqb in *.
  destruct (decide (k = k0)) as [->|Hk].
  - rewrite bool_decide_eq_true_2 by reflexivity. simpl. exact IH.
  - rewrite (bool_decide_eq_false_2 _ Hk). simpl. unfold str_eqb.
    rewrite ?(bool_decide_eq_false_2 _ Hk). exact IH.
Qed.

Lemma word_ne_description : u "word" <> u "description".
Proof. discriminate. Qed.

Lemma word_of_refine_item item : word_of (refine_item item) = word_of item.
Proof.
  destruct item as [| | | | |l|fields]; try reflexivity. simpl.
  destruct (dict_get (u "description") fields) as [[| | | |desc| |]|];
    try reflexivity.
  destruct (Microfix._is_noisy_description U desc); [|reflexivity].
  simpl. rewrite dict_get_pop_ne by exact word_ne_description. reflexivity.
Qed.


(** One item of the loop of lines 224-233. *)
Lemma item_step_inr keep_set item items_out n items_out' n' :
  Microfix.item_step U keep_set item (items_out, n) = inr (items_out', n') ->
  items_out' = items_out
               ++ (if survives keep_set item then [refine_item item] else []).
Proof.
  unfold Microfix.item_step, survives, word_of, refine_item.
  destruct item as [| | | | |l|fields]; try discriminate.
  assert (Hskip : @inr exn _ (items_out, n) = inr (items_out', n') ->
                  items_out' = items_out ++ []).
  { intros [= <- <-]. rewrite app_nil_r. reflexivity. }
  destruct (dict_get (u "word") fields) as [v|] eqn:Ew; simpl;
    [|exact Hskip].
  destruct v as [|b|z|f|s|l|o]; simpl.
  - exact Hskip.
  - destruct b; simpl; [discriminate | exact Hskip].
  - destruct (z =? 0); simpl; [exact Hskip | discriminate].
  - destruct (PrimFloat.eqb f PrimFloat.zero); simpl;
      [exact Hskip | discriminate].
  - destruct (decide (s = [])) as [->|Hs]; [exact Hskip|].
    rewrite (bool_decide_eq_false_2 _ Hs). simpl.
    destruct (bool_decide (strip s = [])); simpl; [exact Hskip|].
    destruct (bool_decide (strip s ∈ keep_set)); simpl; [|exact Hskip].
    destruct (dict_get (u "description") fields) as [[| | | |desc| |]|];
      try (intros [= <- <-]; reflexivity).
    destruct (Microfix._is_noisy_description U desc);
      intros [= <- <-]; reflexivity.
  - destruct (bool_decide (length l = 0%nat)); simpl;
      [exact Hskip | discriminate].
  - destruct (bool_decide (length o = 0%nat)); simpl;
      [exact Hskip | discriminate].
Qed.


Lemma items_loop_inr keep_set items :
  forall items_out n items_out' n',
    for_each items (Microfix.item_step U keep_set) (items_out, n)
    = inr (items_out', n') ->
    items_out' = items_out
                 ++ map refine_item (List.filter (survives keep_set) items).
Proof.
  induction items as [|item items IH]; intros out n out' n'.
  - intros [= <- <-]. rewrite app_nil_r. reflexivity.
  - rewrite for_each_cons. intros H.
    apply bind_inr_inv in H. destruct H as [[out1 n1] [E H]].
    apply IH in H. apply item_step_inr in E. subst. simpl List.filter.
    destruct (survives keep_set item); simpl;
      rewrite <- ?app_assoc, ?app_nil_r; reflexivity.
Qed.


(** *** The word loop, lines 211-217 *)

Definition not_noisy (company : str) (w : str) : Prop :=
  Microfix._is_noisy_word U w company = false.

Lemma word_loop company ws :
  forall kw (seen : gset (list N)),
    (forall x, x ∈ seen <-> x ∈ kw) ->
    exists extra seen',
      fold_left (Microfix.word_step U company) ws (kw, seen)
      = (kw ++ extra, seen')
      /\ (forall x, x ∈ seen' <-> x ∈ kw ++ extra)
      /\ extra `sublist_of` ws
      /\ (NoDup kw -> NoDup (kw ++ extra))
      /\ Forall (not_noisy company) extra.
Proof.
  induction ws as [|w ws IH]; intros kw seen Hinv.
  - exists [], seen. rewrite app_nil_r.
    repeat split; auto; try apply Hinv; constructor.
  - simpl fold_left.
    destruct (Microfix._is_noisy_word U w company) eqn:En.
    { destruct (IH kw seen Hinv) as (extra & seen' & E & H1 & H2 & H3 & H4).
      exists extra, seen'. split; [exact E|]. split; [exact H1|].
      split; [apply sublist_cons; exact H2|]. split; assumption. }
    destruct (decide (w ∈ seen)) as [Hin|Hnin].
    { rewrite (bool_decide_eq_true_2 _ Hin).
      destruct (IH kw seen Hinv) as (extra & seen' & E & H1 & H2 & H3 & H4).
      exists extra, seen'. split; [exact E|]. split; [exact H1|].
      split; [apply sublist_cons; exact H2|]. split; assumption. }
    rewrite (bool_decide_eq_false_2 _ Hnin).
    assert (Hinv' : forall x, x ∈ ({[w]} ∪ seen : gset (list N)) <-> x ∈ kw ++ [w]).
    { intros x. rewrite elem_of_union, elem_of_singleton, elem_of_app,
        list_elem_of_singleton, Hinv. tauto. }
    destruct (IH (kw ++ [w]) ({[w]} ∪ seen) Hinv')
      as (extra & seen' & E & H1 & H2 & H3 & H4).
    exists (w :: extra), seen'.
    replace (kw ++ w :: extra) with ((kw ++ [w]) ++ extra)
      by (rewrite <- app_assoc; reflexivity).
    split; [exact E|]. split; [exact H1|].
    split; [apply sublist_skip; exact H2|]. split.
    + intros Hkw. apply H3. apply NoDup_app. repeat split; auto.
      * intros x Hx Hx'. apply list_elem_of_singleton in Hx'. subst x.
        apply Hnin, Hinv, Hx.
      * apply NoDup_singleton.
    + constructor; [exact En | exact H4].
Qed.

Lemma keep_words_of_spec company ws :
  NoDup (keep_words_of company ws)
  /\ keep_words_of company ws `sublist_of` ws
  /\ Forall (not_noisy company) (keep_words_of company ws).
Proof.
  unfold keep_words_of.
  destruct (word_loop company ws [] ∅) as (extra & seen' & E & _ & H2 & H3 & H4).
  { intros x. rewrite elem_of_empty, elem_of_nil. tauto. }
  rewrite E. simpl. repeat split; auto. apply H3. constructor.
Qed.



(** *** The index of records by word, lines 236-240 *)

Definition word_is (w : str) (item : json) : bool :=
  bool_decide (word_of item = Some w).

Lemma index_step_word (item : json) (w : str) (m : gmap (list N) json) :
  word_of item = Some w ->
  Microfix.index_step item m
  = inr (match m !! w with None => <[w := item]> m | Some _ => m end).
Proof.
  unfold word_of, Microfix.index_step.
  destruct item as [| | | | |l|fields]; try discriminate.
  destruct (dict_get (u "word") fields) as [[| | | |s| |]|]; try discriminate.
  intros [= ->]. destruct (m !! w); reflexivity.
Qed.

Lemma index_loop items :
  Forall (fun item => is_Some (word_of item)) items ->
  forall m : gmap (list N) json, exists m',
    for_each items Microfix.index_step m = inr m'
    /\ forall w, m' !! w = match m !! w with
                           | Some x => Some x
                           | None => List.find (word_is w) items
                           end.
Proof.
  induction 1 as [|item items [w0 Hw0] _ IH]; intros m.
  - exists m. split; [reflexivity|]. intros w. destruct (m !! w); reflexivity.
  - rewrite for_each_cons, (index_step_word item w0 m Hw0), bind_inr.
    destruct (IH (match m !! w0 with None => <[w0 := item]> m | Some _ => m end))
      as (m' & E & Hm').
    exists m'. split; [exact E|]. intros w. rewrite Hm'. simpl.
    unfold word_is at 2. rewrite Hw0.
    destruct (decide (w0 = w)) as [->|Hne].
    + rewrite bool_decide_eq_true_2 by reflexivity.
      destruct (m !! w) eqn:Em; [rewrite Em; reflexivity|].
      rewrite lookup_insert_eq. reflexivity.
    + rewrite bool_decide_eq_false_2 by congruence.
      destruct (m !! w0) eqn:Em0; [reflexivity|].
      rewrite lookup_insert_ne by exact Hne. reflexivity.
Qed.

(** *** [microfix_company] in closed form *)

Definition kept_items (keep : list str) (items_in : list json) : list json :=
  map refine_item
    (List.filter (survives (list_to_set keep)) items_in).

Definition ordered_items (keep : list str) (items_out : list json)
  : list json :=
  omap (fun w => List.find (word_is w) items_out) keep.

Definition refined (dirname text : str) (items_in : list json) : Artifacts :=
  let company := Microfix._company_name_from_dirname U dirname in
  let keep := keep_words_of company (Microfix._load_words text) in
  {| wordList_txt := Some (Microfix._write_words keep);
     wordList_jsonl := Some (ordered_items keep (kept_items keep items_in)) |}.

Lemma survives_word keep_set item :
  survives keep_set item = true -> is_Some (word_of item).
Proof.
  unfold survives. destruct (word_of item); [eauto | discriminate].
Qed.

Lemma kept_items_word keep items_in :
  Forall (fun item => is_Some (word_of item)) (kept_items keep items_in).
Proof.
  unfold kept_items. apply List.Forall_forall. intros r Hr.
  apply in_map_iff in Hr. destruct Hr as [item [<- Hitem]].
  apply filter_In in Hitem. rewrite word_of_refine_item.
  eapply survives_word, Hitem.
Qed.

Lemma microfix_company_loop OUTPUT_DIR dirname text items_in items_out n :
  for_each items_in
    (Microfix.item_step U
       (list_to_set
          (keep_words_of (Microfix._company_name_from_dirname U dirname)
             (Microfix._load_words text))))
    ([], 0) = inr (items_out, n) ->
  exists stats,
    Microfix.microfix_company U OUTPUT_DIR dirname
      {| wordList_txt := Some text; wordList_jsonl := Some items_in |}
    = inr (refined dirname text items_in, stats).
Proof.
  intros Hloop. unfold Microfix.microfix_company, refined. simpl.
  unfold keep_words_of in *.
  destruct (fold_left _ (Microfix._load_words text) ([], ∅)) as [kw seen].
  simpl in *. rewrite Hloop, bind_inr.
  pose proof (items_loop_inr _ _ _ _ _ _ Hloop) as Hout. simpl in Hout.
  fold (kept_items kw items_in) in Hout. subst items_out.
  destruct (index_loop _ (kept_items_word kw items_in) ∅) as (m' & E & Hm').
  rewrite E, bind_inr. eexists. f_equal. f_equal. f_equal. f_equal.
  unfold ordered_items. apply list_omap_ext.
  apply Forall2_same_length_lookup_2; [reflexivity|].
  intros i x y Hx Hy. assert (x = y) by congruence. subst y.
  rewrite Hm', lookup_empty. reflexivity.
Qed.

Lemma microfix_company_inr OUTPUT_DIR dirname files files' stats :
  Microfix.microfix_company U OUTPUT_DIR dirname files = inr (files', stats) ->
  exists text items_in,
    files = {| wordList_txt := Some text; wordList_jsonl := Some items_in |}
    /\ files' = refined dirname text items_in.
Proof.
  intros H. destruct files as [[text|] [items_in|]];
    try (unfold Microfix.microfix_company in H; simpl in H; discriminate).
  exists text, items_in. split; [reflexivity|].
  destruct (for_each items_in
              (Microfix.item_step U
                 (list_to_set
                    (keep_words_of (Microfix._company_name_from_dirname U dirname)
                       (Microfix._load_words text))))
              ([], 0)) as [e|[items_out n]] eqn:Hloop.
  - exfalso. unfold Microfix.microfix_company in H. simpl in H.
    unfold keep_words_of in Hloop.
    destruct (fold_left _ (Microfix._load_words text) ([], ∅)) as [kw seen].
    simpl in Hloop. rewrite Hloop in H. discriminate.
  - destruct (microfix_company_loop OUTPUT_DIR dirname text items_in _ _ Hloop)
      as [stats' E].
    rewrite E in H. congruence.
Qed.

End MicrofixFacts.

(** ** Properties of the micro-fix pass *)

Section MicrofixTheorems.

Context (U : UnicodeDB).

Lemma Forall_sublist {A} (P : A -> Prop) (l1 l2 : list A) :
  l1 `sublist_of` l2 -> Forall P l2 -> Forall P l1.
Proof.
  intros Hsub H. rewrite Forall_forall in *.
  intros x Hx. apply H. eapply elem_of_sublist; eassumption.
Qed.



Lemma word_is_true w item : word_is w item = true -> word_of item = Some w.
Proof. unfold word_is. apply bool_decide_eq_true_1. Qed.

Lemma find_word_is w items item :
  List.find (word_is w) items = Some item ->
  In item items /\ word_of item = Some w.
Proof.
  intros H. apply find_some in H. destruct H as [H1 H2].
  split; [exact H1 | apply word_is_true, H2].
Qed.

(** The records written: each comes from a kept record and carries a
    kept word. *)
Lemma ordered_items_spec keep items_in r' :
  r' ∈ ordered_items keep (kept_items U keep items_in) ->
  exists w r,
    w ∈ keep /\ word_of r' = Some w /\ r ∈ items_in
    /\ survives (list_to_set keep) r = true /\ r' = refine_item U r.
Proof.
  unfold ordered_items. rewrite list_elem_of_omap.
  intros (w & Hw & Hfind). apply find_word_is in Hfind.
  destruct Hfind as [Hin Hword]. unfold kept_items in Hin.
  apply in_map_iff in Hin. destruct Hin as (r & <- & Hr).
  apply filter_In in Hr. destruct Hr as [Hr Hs].
  exists w, r. repeat split; auto. apply list_elem_of_In. exact Hr.
Qed.




Lemma keep_words_clean company text :
  Forall clean (keep_words_of U company (Microfix._load_words text)).
Proof.
  destruct (keep_words_of_spec U company (Microfix._load_words text))
    as (_ & Hsub & _).
  eapply Forall_sublist; [exact Hsub | apply load_words_clean].
Qed.

Lemma refined_words dirname text items_in :
  exists keep,
    wordList_txt (refined U dirname text items_in)
    = Some (Microfix._write_words keep)
    /\ Microfix._load_words (Microfix._write_words keep) = keep
    /\ NoDup keep
    /\ keep `sublist_of` Microfix._load_words text
    /\ Forall clean keep
    /\ Forall (not_noisy U (Microfix._company_name_from_dirname U dirname)) keep
    /\ wordList_jsonl (refined U dirname text items_in)
       = Some (ordered_items keep (kept_items U keep items_in)).
Proof.
  set (company := Microfix._company_name_from_dirname U dirname).
  exists (keep_words_of U company (Microfix._load_words text)).
  destruct (keep_words_of_spec U company (Microfix._load_words text))
    as (Hnd & Hsub & Hns).
  pose proof (keep_words_clean company text) as Hclean.
  split; [reflexivity|]. split; [apply load_write_words, Hclean|].
  repeat split; auto.
Qed.

(** C10: [microfix_company] never invents content. When it returns, the
    word list it writes is a duplicate-free subsequence of the word list
    it read, and every record it writes is a record it read, possibly
    without its [description] field. *)
Theorem C10_microfix_only_removes OUTPUT_DIR dirname files files' stats :
  Microfix.microfix_company U OUTPUT_DIR dirname files = inr (files', stats) ->
  exists text items_in text' items_out,
    wordList_txt files = Some text /\ wordList_jsonl files = Some items_in
    /\ wordList_txt files' = Some text'
    /\ wordList_jsonl files' = Some items_out
    /\ NoDup (Microfix._load_words text')
    /\ Microfix._load_words text' `sublist_of` Microfix._load_words text
    /\ forall r', r' ∈ items_out ->
         exists r, r ∈ items_in
           /\ (r' = r
               \/ exists fields,
                    r = JObj fields
                    /\ r' = JObj (dict_pop (u "description") fields)).
Proof.
  intros H. apply microfix_company_inr in H.
  destruct H as (text & items_in & -> & ->).
  destruct (refined_words dirname text items_in)
    as (keep & Htxt & Hload & Hnd & Hsub & _ & _ & Hjsonl).
  exists text, items_in, (Microfix._write_words keep),
    (ordered_items keep (kept_items U keep items_in)).
  rewrite Hload. repeat split; auto.
  intros r' Hr'. apply ordered_items_spec in Hr'.
  destruct Hr' as (w & r & _ & _ & Hr & _ & ->).
  exists r. split; [exact Hr|].
  unfold refine_item. destruct r as [| | | | |l|fields]; auto.
  destruct (dict_get (u "description") fields) as [[| | | |desc| |]|]; auto.
  destruct (Microfix._is_noisy_description U desc); eauto.
Qed.



End MicrofixTheorems.

(** ** The candidate filter of pass 1 *)

Section FilterTheorems.

Context (U : UnicodeDB).

(** What section 8 of the specification states of an accepted term. *)
Definition accepted_term_ok (t company : str) : Prop :=
  Extract.MIN_TERM_CHARS <= len t <= Extract.MAX_TERM_CHARS
  /\ mem t Extract.STOPWORDS = false
  /\ fullmatch (Extract.RE_ONLY_DIGITS U) t = false
  /\ fullmatch (Extract.RE_ONLY_NUM_PUNCT U) t = false
  /\ fullmatch Extract.RE_ONLY_HIRAGANA t = false
  /\ fullmatch (Extract.RE_DATE_LIKE U) t = false
  /\ fullmatch (Extract.RE_SECTION_LIKE U) t = false
  /\ t <> Extract._nfkc U company
  /\ ~ (contains t (Extract._nfkc U company) = true
        /\ len t - len (Extract._nfkc U company) <= 4).

(** C5, amended: for a term that [_looks_bad] accepts and an entity whose
    normalized name is not empty, the term with its surrounding white
    space removed (the term itself when it has none) has 2 to 40
    characters, is no stop word, matches none of the five patterns, is not
    the normalized entity name and does not contain it while at most four
    characters longer. *)
Theorem C5_accepted_term_trimmed_ok t company :
  Extract._looks_bad U t company = false ->
  Extract._nfkc U company <> [] ->
  accepted_term_ok (strip t) company.
Proof.
  unfold Extract._looks_bad. intros H Hc.
  repeat match type of H with
         | (if ?c then true else _) = false =>
           let E := fresh "E" in destruct c eqn:E; [discriminate|]
         end.
  unfold accepted_term_ok.
  apply orb_false_iff in E1. destruct E1 as [Hmin Hmax].
  apply Z.ltb_ge in Hmin, Hmax.
  repeat split; try assumption.
  - intros Heq. unfold str_eqb in E10. rewrite Heq in E10.
    rewrite bool_decide_eq_true_2 in E10 by reflexivity. discriminate.
  - intros [Hin Hlen].
    rewrite (bool_decide_eq_false_2 _ Hc), Hin in E11. simpl in E11.
    apply Z.leb_gt in E11. lia.
Qed.

End FilterTheorems.

Definition long_term : str := Eval vm_compute in
  u " aaaaaaaaaaaaaaaaaaaaaaaaaaaaaaaaaaaaaaaa".

(** C5 as stated fails: a candidate that keeps a blank after the connector
    strip is accepted with 41 characters, since [_looks_bad] measures the
    trimmed term; and with an empty entity name every accepted term of up
    to four characters contains it. *)
Lemma C5_counterexample :
  strip_chars Extract.CONNECTOR_CHARS
    (strip (Extract._nfkc sample_db
              (u "- aaaaaaaaaaaaaaaaaaaaaaaaaaaaaaaaaaaaaaaa"))) = long_term
  /\ Extract._looks_bad sample_db long_term (u "X") = false
  /\ ~ accepted_term_ok sample_db long_term (u "X")
  /\ Extract._looks_bad sample_db (u "ab") [] = false
  /\ ~ accepted_term_ok sample_db (u "ab") [].
Proof.
  split; [vm_compute; reflexivity|].
  split; [vm_compute; reflexivity|].
  split; [|split; [vm_compute; reflexivity|]].
  - intros [[_ H] _]. vm_compute in H. apply H. reflexivity.
  - intros (_ & _ & _ & _ & _ & _ & _ & _ & H). apply H.
    split; vm_compute; [reflexivity | discriminate].
Qed.

Lemma C5_witness :
  accepted_term_ok sample_db (strip (u "売上高")) (u "ExampleCo").
Proof.
  apply (C5_accepted_term_trimmed_ok sample_db (u "売上高") (u "ExampleCo")).
  - vm_compute. reflexivity.
  - vm_compute. discriminate.
Defined.

(** ** Ranking and the cap *)

Section RankFacts.












End RankFacts.

Section CapTheorems.

Abbreviation MAX := Extract.MAX_TERMS_PER_COMPANY (only parsing).







End CapTheorems.




(** ** The phrase builder in closed form *)

Section PhraseFacts.

Context (tokenize : str -> list Extract.Token).

(** The noun-kind tokens among [ks]. *)
Definition nouns_in (ks : list Extract.kind) : Z :=
  len (List.filter (fun k => bool_decide (k = Extract.noun)) ks).

(** The text of a window: its surfaces joined and stripped as line 197
    does. *)
Definition window_text (parts : list str) : str :=
  strip_chars Extract.CONNECTOR_CHARS (Extract._join_surfaces parts).

Lemma nouns_in_cons k ks :
  nouns_in (k :: ks)
  = (if decide (k = Extract.noun) then 1 else 0) + nouns_in ks.
Proof.
  unfold nouns_in, len. simpl.
  destruct (decide (k = Extract.noun)) as [->|Hk].
  - rewrite bool_decide_eq_true_2 by reflexivity. simpl length. lia.
  - rewrite (bool_decide_eq_false_2 _ Hk). lia.
Qed.

Lemma window_step_at segment kinds j s k c parts ph :
  segment !! j = Some s -> kinds !! j = Some k ->
  Extract.window_step segment kinds j (c, parts, ph)
  = inr ((if decide (k = Extract.noun) then c + 1 else c), parts ++ [s],
         Some (window_text (parts ++ [s]))).
Proof. intros Hs Hk. unfold Extract.window_step. rewrite Hs, Hk. reflexivity. Qed.

(** The inner loop over [n] tokens from position [i]. *)
Lemma window_loop segment kinds n :
  forall i c parts ph,
    (i + n <= length segment)%nat -> (i + n <= length kinds)%nat ->
    for_each (seq i n) (Extract.window_step segment kinds) (c, parts, ph)
    = inr (c + nouns_in (firstn n (skipn i kinds)),
           parts ++ firstn n (skipn i segment),
           match n with
           | O => ph
           | S _ => Some (window_text (parts ++ firstn n (skipn i segment)))
           end).
Proof.
  induction n as [|n IH]; intros i c parts ph Hs Hk.
  - simpl. rewrite app_nil_r. unfold nouns_in, len. simpl.
    rewrite Z.add_0_r. reflexivity.
  - destruct (lookup_lt_is_Some_2 segment i) as [s Hsi]; [lia|].
    destruct (lookup_lt_is_Some_2 kinds i) as [k Hki]; [lia|].
    simpl seq. rewrite for_each_cons.
    rewrite (window_step_at _ _ _ _ _ _ _ _ Hsi Hki), bind_inr.
    rewrite IH by lia.
    rewrite (drop_S _ _ _ Hsi), (drop_S _ _ _ Hki).
    simpl take. rewrite nouns_in_cons.
    rewrite <- !app_assoc. simpl app.
    f_equal. f_equal; [f_equal; destruct (decide (k = Extract.noun)); lia|].
    destruct n; reflexivity.
Qed.

Lemma take_min_length {A} (l : list A) m :
  firstn (Nat.min (length l) m) l = firstn m l.
Proof.
  destruct (Nat.le_gt_cases m (length l)) as [H|H].
  - rewrite Nat.min_r by exact H. reflexivity.
  - rewrite Nat.min_l by lia. rewrite !firstn_all2 by lia. reflexivity.
Qed.

(** What one start position appends to the candidates. *)
Definition emitted (segment : list str) (kinds : list Extract.kind)
    (i : nat) (surface : str) (k : Extract.kind) : list str :=
  (if bool_decide (k = Extract.noun) && negb (mem surface Extract.CONNECTORS)
   then [surface] else [])
  ++ (let phrase := window_text (firstn 6 (skipn i segment)) in
      if (2 <=? nouns_in (firstn 6 (skipn i kinds)))
         && negb (bool_decide (phrase = []))
         && (len phrase <=? Extract.MAX_TERM_CHARS)
      then [phrase] else []).

Lemma flush_at_closed segment kinds i surface k candidates :
  (i < length segment)%nat -> length segment = length kinds ->
  Extract.flush_at segment kinds i surface k candidates
  = inr (candidates ++ emitted segment kinds i surface k).
Proof.
  intros Hi Hlen. unfold Extract.flush_at. cbv zeta.
  set (n := (Nat.min (length segment) (i + 6) - i)%nat).
  assert (Hn : n = Nat.min (length (skipn i segment)) 6)
    by (unfold n; rewrite length_skipn; lia).
  assert (Hn' : n = Nat.min (length (skipn i kinds)) 6)
    by (unfold n; rewrite length_skipn; lia).
  assert (Hpos : (0 < n)%nat) by (unfold n; lia).
  rewrite window_loop by (unfold n; lia).
  rewrite bind_inr, !app_nil_l.
  replace (firstn n (skipn i segment)) with (firstn 6 (skipn i segment))
    by (rewrite Hn, take_min_length; reflexivity).
  replace (firstn n (skipn i kinds)) with (firstn 6 (skipn i kinds))
    by (rewrite Hn', take_min_length; reflexivity).
  clearbody n. destruct n as [|n']; [lia|].
  unfold emitted. rewrite Z.add_0_l.
  destruct (bool_decide (k = Extract.noun) && negb (mem surface Extract.CONNECTORS));
    destruct ((2 <=? nouns_in (firstn 6 (skipn i kinds)))
              && negb (bool_decide (window_text (firstn 6 (skipn i segment)) = []))
              && (len (window_text (firstn 6 (skipn i segment)))
                  <=? Extract.MAX_TERM_CHARS));
    simpl; rewrite <- ?app_assoc, ?app_nil_r; reflexivity.
Qed.

(** A loop that only appends. *)
Lemma for_each_appends {A B} (xs : list A) (body : A -> list B -> exn + list B)
    (g : A -> list B) :
  (forall x c, In x xs -> body x c = inr (c ++ g x)) ->
  forall c, for_each xs body c = inr (c ++ flat_map g xs).
Proof.
  induction xs as [|x xs IH]; intros H c.
  - simpl. rewrite app_nil_r. reflexivity.
  - rewrite for_each_cons, H by (left; reflexivity). rewrite bind_inr.
    rewrite IH by (intros; apply H; right; assumption).
    simpl. rewrite app_assoc. reflexivity.
Qed.

(** All the candidates of one segment. *)
Definition segment_candidates (segment : list str)
    (kinds : list Extract.kind) : list str :=
  flat_map (fun '(i, (surface, k)) => emitted segment kinds i surface k)
    (imap (fun i sk => (i, sk)) (zip segment kinds)).

Lemma flush_segment_closed segment kinds candidates :
  length segment = length kinds ->
  Extract.flush_segment segment kinds candidates
  = inr (candidates ++ segment_candidates segment kinds).
Proof.
  intros Hlen. unfold Extract.flush_segment.
  destruct (decide (segment = [])) as [->|Hne].
  - destruct kinds; [|discriminate]. simpl. rewrite app_nil_r. reflexivity.
  - rewrite (bool_decide_eq_false_2 _ Hne).
    rewrite (for_each_appends _ _
               (fun '(i, (surface, k)) => emitted segment kinds i surface k)).
    + rewrite bind_inr, (bool_decide_eq_true_2 _ Hlen). reflexivity.
    + intros [i [surface k]] c Hin.
      apply list_elem_of_In, elem_of_lookup_imap in Hin.
      destruct Hin as (i' & sk & [= -> <-] & Hlook).
      apply flush_at_closed; [|exact Hlen].
      apply lookup_lt_Some in Hlook. rewrite length_zip in Hlook. lia.
Qed.

Lemma extract_step_kind token k segment kinds candidates :
  Extract.kind_of token = Some k ->
  Extract.extract_step token (segment, kinds, candidates)
  = inr (segment ++ [Extract.surface token], kinds ++ [k], candidates).
Proof. intros H. unfold Extract.extract_step. rewrite H. reflexivity. Qed.

Lemma extract_step_boundary token segment kinds candidates :
  Extract.kind_of token = None -> length segment = length kinds ->
  Extract.extract_step token (segment, kinds, candidates)
  = inr ([], [], candidates ++ segment_candidates segment kinds).
Proof.
  intros H Hlen. unfold Extract.extract_step.
  rewrite H, flush_segment_closed by exact Hlen. reflexivity.
Qed.

(** The state of [extract_candidates] keeps [segment] and [kinds] in
    step, so that no loop of it raises. *)
Lemma extract_loop_total tokens :
  forall segment kinds candidates,
    length segment = length kinds ->
    exists segment' kinds' candidates',
      for_each tokens (Extract.extract_step) (segment, kinds, candidates)
      = inr (segment', kinds', candidates')
      /\ length segment' = length kinds'.
Proof.
  induction tokens as [|token tokens IH]; intros segment kinds candidates Hlen.
  - exists segment, kinds, candidates. split; [reflexivity | exact Hlen].
  - rewrite for_each_cons.
    destruct (Extract.kind_of token) as [k|] eqn:Ek.
    + rewrite (extract_step_kind _ _ _ _ _ Ek), bind_inr.
      apply IH. rewrite !length_app. simpl. lia.
    + rewrite (extract_step_boundary _ _ _ _ Ek Hlen), bind_inr.
      apply IH. reflexivity.
Qed.

Lemma extract_candidates_total text :
  exists candidates, Extract.extract_candidates tokenize text = inr candidates.
Proof.
  unfold Extract.extract_candidates.
  destruct (extract_loop_total (Extract.tokens_of tokenize text) [] [] [] eq_refl)
    as (segment & kinds & candidates & -> & Hlen).
  rewrite bind_inr, flush_segment_closed by exact Hlen. eauto.
Qed.

End PhraseFacts.

Definition abc_tokenizer : str -> list Extract.Token :=
  table_tokenizer
    [(u "ABC", [tok "A" "名詞,一般,*,*"; tok "B" "名詞,一般,*,*";
                tok "C" "名詞,一般,*,*"])].

(** C2 fails on the code: the test of line 198 stands after the inner
    loop, so a start position yields only its longest window. For the run
    of nouns A, B, C the window of two tokens at position 0 has two nouns
    and the text AB of two characters, and AB is no candidate. *)
Theorem C2_shorter_windows_are_not_emitted :
  Extract.extract_candidates abc_tokenizer (u "ABC")
  = inr [u "A"; u "ABC"; u "B"; u "BC"; u "C"]
  /\ Extract.flush_segment [u "A"; u "B"; u "C"]
       [Extract.noun; Extract.noun; Extract.noun] []
     = inr [u "A"; u "ABC"; u "B"; u "BC"; u "C"]
  /\ 2 <= nouns_in (firstn 2 (skipn 0 [Extract.noun; Extract.noun; Extract.noun]))
  /\ window_text (firstn 2 (skipn 0 [u "A"; u "B"; u "C"])) = u "AB"
  /\ len (u "AB") <= Extract.MAX_TERM_CHARS
  /\ ~ In (u "AB") [u "A"; u "ABC"; u "B"; u "BC"; u "C"].
Proof.
  repeat split; try (vm_compute; reflexivity); try (vm_compute; discriminate).
  intros H. vm_compute in H. intuition discriminate.
Qed.

(** ** Pass 1 over the documents of an entity *)

Section ProcessFacts.

Context (U : UnicodeDB) (tokenize : str -> list Extract.Token).

(** The candidates of a page. *)
Definition candidates_of (text : str) : list str :=
  match Extract.extract_candidates tokenize text with
  | inr candidates => candidates
  | inl _ => []
  end.

Lemma extract_candidates_of text :
  Extract.extract_candidates tokenize text = inr (candidates_of text).
Proof.
  unfold candidates_of.
  destruct (extract_candidates_total tokenize text) as [c ->]. reflexivity.
Qed.

(** An occurrence: a candidate with the page it was found on. The
    occurrences of a page, of a document and of the documents of an
    entity, in the order pass 1 meets them. *)
Definition page_occurrences (page_text : str) : list (str * str) :=
  if bool_decide (page_text = []) then []
  else map (fun raw_term => (page_text, raw_term)) (candidates_of page_text).

Definition pdf_occurrences (pdf : Extract.Pdf) : list (str * str) :=
  let '(pages_text, info) := Extract.extract_pdf_pages_text U pdf in
  if Extract.pages_with_text info =? 0 then []
  else flat_map page_occurrences pages_text.

Definition occurrence_step (company : str)
    (st : list (str * Z) * gmap (list N) (list N)) (o : str * str)
  : list (str * Z) * gmap (list N) (list N) :=
  Extract.term_step U company (fst o) (snd o) st.

Lemma fold_left_flat_map {A B S} (f : S -> B -> S) (g : A -> list B) xs s :
  fold_left f (flat_map g xs) s
  = fold_left (fun s x => fold_left f (g x) s) xs s.
Proof.
  revert s. induction xs as [|x xs IH]; intros s; [reflexivity|].
  simpl. rewrite fold_left_app. apply IH.
Qed.

Lemma page_step_closed company page_text st :
  Extract.page_step U tokenize company page_text st
  = inr (fold_left (occurrence_step company) (page_occurrences page_text) st).
Proof.
  unfold Extract.page_step, page_occurrences.
  destruct (bool_decide (page_text = [])); [reflexivity|].
  rewrite extract_candidates_of, bind_inr. f_equal.
  generalize (candidates_of page_text). intros l. revert st.
  induction l as [|raw l IH]; intros st; [reflexivity|]. simpl. apply IH.
Qed.

Lemma pages_loop_closed company pages st :
  for_each pages (Extract.page_step U tokenize company) st
  = inr (fold_left (occurrence_step company)
           (flat_map page_occurrences pages) st).
Proof.
  revert st. induction pages as [|p pages IH]; intros st; [reflexivity|].
  rewrite for_each_cons, page_step_closed, bind_inr, IH.
  simpl. rewrite fold_left_app. reflexivity.
Qed.

(** The fields of the accumulator after one document. *)
Lemma pdf_step_closed company pdf acc :
  exists acc',
    Extract.pdf_step U tokenize company pdf acc = inr acc'
    /\ (Extract.counter acc', Extract.first_context acc')
       = fold_left (occurrence_step company) (pdf_occurrences pdf)
           (Extract.counter acc, Extract.first_context acc)
    /\ Extract.pdf_infos acc'
       = Extract.pdf_infos acc ++ [snd (Extract.extract_pdf_pages_text U pdf)]
    /\ Extract.notes acc'
       = Extract.notes acc
         ++ (if Extract.pages_with_text
                  (snd (Extract.extract_pdf_pages_text U pdf)) =? 0
             then [Extract.note_no_text (Extract.pdf_name pdf)] else []).
Proof.
  unfold Extract.pdf_step, pdf_occurrences.
  destruct (Extract.extract_pdf_pages_text U pdf) as [pages info]. simpl snd.
  destruct (Extract.pages_with_text info =? 0).
  - eexists. split; [reflexivity|]. simpl. auto.
  - rewrite pages_loop_closed, bind_inr.
    destruct (fold_left _ _ _) as [c fc] eqn:E.
    eexists. split; [reflexivity|]. simpl. rewrite app_nil_r. auto.
Qed.

Definition entity_occurrences (pdfs : list Extract.Pdf) : list (str * str) :=
  flat_map pdf_occurrences pdfs.

Lemma pdfs_loop_closed company pdfs :
  forall acc, exists acc',
    for_each pdfs (Extract.pdf_step U tokenize company) acc = inr acc'
    /\ (Extract.counter acc', Extract.first_context acc')
       = fold_left (occurrence_step company) (entity_occurrences pdfs)
           (Extract.counter acc, Extract.first_context acc).
Proof.
  induction pdfs as [|pdf pdfs IH]; intros acc.
  - exists acc. split; reflexivity.
  - rewrite for_each_cons.
    destruct (pdf_step_closed company pdf acc) as (acc1 & -> & E1 & _).
    rewrite bind_inr. destruct (IH acc1) as (acc' & -> & E').
    exists acc'. split; [reflexivity|].
    unfold entity_occurrences in *. simpl. rewrite fold_left_app, <- E1.
    exact E'.
Qed.

End ProcessFacts.

(** ** The context snippets of pass 1 *)

Section ContextTheorems.

Context (U : UnicodeDB) (tokenize : str -> list Extract.Token).

(** The term of a candidate, lines 412-413. *)
Definition normalized (raw_term : str) : str :=
  strip_chars Extract.CONNECTOR_CHARS (strip (Extract._nfkc U raw_term)).

Definition accepted (company : str) (o : str * str) : bool :=
  negb (Extract._looks_bad U (normalized (snd o)) company).

(** The snippet an occurrence yields for its term, if any. *)
Definition found_at (o : str * str) : option str :=
  match Extract._extract_context (fst o) (normalized (snd o)) with
  | Some ctx => if bool_decide (ctx = []) then None else Some ctx
  | None => None
  end.

(** The snippet of the first occurrence of [t] that yields one. *)
Fixpoint first_found (company : str) (occs : list (str * str)) (t : str)
  : option str :=
  match occs with
  | [] => None
  | o :: rest =>
    if accepted company o && str_eqb (normalized (snd o)) t then
      match found_at o with
      | Some ctx => Some ctx
      | None => first_found company rest t
      end
    else first_found company rest t
  end.

(** The snippet of the first occurrence of [t], whether it yields one or
    not. *)
Fixpoint first_seen (company : str) (occs : list (str * str)) (t : str)
  : option str :=
  match occs with
  | [] => None
  | o :: rest =>
    if accepted company o && str_eqb (normalized (snd o)) t then found_at o
    else first_seen company rest t
  end.

Lemma occurrence_step_context company o st t :
  snd (occurrence_step U company st o) !! t
  = match snd st !! t with
    | Some ctx => Some ctx
    | None => if accepted company o && str_eqb (normalized (snd o)) t
              then found_at o else None
    end.
Proof.
  destruct st as [counter fc], o as [page raw].
  unfold occurrence_step, Extract.term_step, accepted, found_at, str_eqb.
  simpl fst. simpl snd. fold (normalized raw).
  set (term := normalized raw).
  destruct (Extract._looks_bad U term company); simpl.
  { destruct (fc !! t); reflexivity. }
  destruct (decide (term = t)) as [<-|Hne].
  - rewrite bool_decide_eq_true_2 by reflexivity.
    destruct (fc !! term) as [c|] eqn:E; simpl; [exact E|].
    destruct (Extract._extract_context page term) as [ctx|]; simpl; [|exact E].
    destruct (bool_decide (ctx = [])); simpl; [exact E|].
    apply lookup_insert_eq.
  - rewrite (bool_decide_eq_false_2 _ Hne).
    assert (Hsame : forall fc' : gmap (list N) (list N),
               (fc' = fc \/ exists ctx, fc' = <[term := ctx]> fc) ->
               fc' !! t = match fc !! t with Some c => Some c | None => None end).
    { intros fc' [->|[ctx ->]]; [|rewrite lookup_insert_ne by exact Hne];
        destruct (fc !! t); reflexivity. }
    destruct (fc !! term); simpl; [apply Hsame; auto|].
    destruct (Extract._extract_context page term) as [ctx|]; simpl;
      [|apply Hsame; auto].
    destruct (bool_decide (ctx = [])); simpl; apply Hsame; eauto.
Qed.

Lemma occurrences_context company occs :
  forall st t,
    snd (fold_left (occurrence_step U company) occs st) !! t
    = match snd st !! t with
      | Some ctx => Some ctx
      | None => first_found company occs t
      end.
Proof.
  induction occs as [|o occs IH]; intros st t; simpl.
  - destruct (snd st !! t); reflexivity.
  - rewrite IH, occurrence_step_context.
    destruct (snd st !! t); [reflexivity|].
    destruct (accepted company o && str_eqb (normalized (snd o)) t);
      [|reflexivity].
    destruct (found_at o); reflexivity.
Qed.

(** C7, amended: a stored context is never overwritten, by a later
    occurrence on the same page, on a later page or in a later document;
    and the context stored for a term is the snippet of the first of its
    occurrences that yields a non-empty one, which is the first occurrence
    only when that one yields a snippet. *)
Theorem C7_first_found_context_is_kept company :
  (forall occs st t,
      snd (fold_left (occurrence_step U company) occs st) !! t
      = match snd st !! t with
        | Some ctx => Some ctx
        | None => first_found company occs t
        end)
  /\ (forall pdfs acc, exists acc',
         for_each pdfs (Extract.pdf_step U tokenize company) acc = inr acc'
         /\ forall t,
              Extract.first_context acc' !! t
              = match Extract.first_context acc !! t with
                | Some ctx => Some ctx
                | None =>
                  first_found company (entity_occurrences U tokenize pdfs) t
                end).
Proof.
  split; [apply occurrences_context|].
  intros pdfs acc.
  destruct (pdfs_loop_closed U tokenize company pdfs acc) as (acc' & E & Hst).
  exists acc'. split; [exact E|]. intros t.
  change (Extract.first_context acc')
    with (snd (Extract.counter acc', Extract.first_context acc')).
  rewrite Hst, occurrences_context. reflexivity.
Qed.

(** C7 as stated: the stored context is that of the first occurrence. *)
Definition only_first_occurrence_captured (company : str)
    (pdfs : list Extract.Pdf) : Prop :=
  forall acc' t,
    for_each pdfs (Extract.pdf_step U tokenize company)
      {| Extract.counter := []; Extract.first_context := ∅;
         Extract.pdf_infos := []; Extract.notes := [] |} = inr acc' ->
    Extract.first_context acc' !! t
    = first_seen company (entity_occurrences U tokenize pdfs) t.

End ContextTheorems.

Definition sample_tokenizer : str -> list Extract.Token :=
  table_tokenizer
    [(u "売上高", [tok "売上高" "名詞,一般,*,*"]);
     (u "当社の売上高は増加した。",
      [tok "当社" "名詞,一般,*,*"; tok "の" "助詞,連体化,*,*";
       tok "売上高" "名詞,一般,*,*"; tok "は" "助詞,係助詞,*,*";
       tok "増加" "名詞,サ変接続,*,*"; tok "し" "動詞,自立,*,*";
       tok "た" "助動詞,*,*,*"; tok "。" "記号,句点,*,*"])].

(** A document of two pages: the term alone, then a sentence with it. *)
Definition two_page_pdf : Extract.Pdf :=
  {| Extract.pdf_name := u "a.pdf";
     Extract.pdf_raw :=
       Some (u "売上高" ++ [12%N] ++ u "当社の売上高は増加した。") |}.

(** C7 as stated fails: the first occurrence of the term, on page 1, gives
    no snippet (the window has three characters), and the context stored
    is the one of its occurrence on page 2. *)
Lemma C7_counterexample :
  hd_error (entity_occurrences sample_db sample_tokenizer [two_page_pdf])
  = Some (u "売上高", u "売上高")
  /\ Extract._extract_context (u "売上高") (u "売上高") = None
  /\ Extract._extract_context (u "当社の売上高は増加した。") (u "売上高")
     = Some (u "当社の売上高は増加した。")
  /\ ~ only_first_occurrence_captured sample_db sample_tokenizer
         (u "ExampleCo") [two_page_pdf].
Proof.
  split; [vm_compute; reflexivity|].
  split; [vm_compute; reflexivity|].
  split; [vm_compute; reflexivity|].
  intros H.
  destruct (pdfs_loop_closed sample_db sample_tokenizer (u "ExampleCo")
              [two_page_pdf]
              {| Extract.counter := []; Extract.first_context := ∅;
                 Extract.pdf_infos := []; Extract.notes := [] |})
    as (acc' & E & Hst).
  specialize (H acc' (u "売上高") E).
  change (Extract.first_context acc')
    with (snd (Extract.counter acc', Extract.first_context acc')) in H.
  rewrite Hst in H. clear E Hst. vm_compute in H. discriminate H.
Qed.

(** ** Errors of the two batches *)

Section ErrorTheorems.

Context (U : UnicodeDB) (tokenize : str -> list Extract.Token).

Lemma run_batch_app {D} (pre rest : list D) step out :
  run_batch (pre ++ rest) step out
  = match run_batch pre step out with
    | (out1, inr _) => run_batch rest step out1
    | (out1, inl e) => (out1, inl e)
    end.
Proof.
  revert out. induction pre as [|d pre IH]; intros out; [reflexivity|].
  simpl. destruct (step d out) as [out' [e|[]]]; [reflexivity | apply IH].
Qed.

Lemma microfix_company_missing OUTPUT_DIR dirname files :
  wordList_txt files = None \/ wordList_jsonl files = None ->
  exists path,
    Microfix.microfix_company U OUTPUT_DIR dirname files
    = inl (FileNotFoundError path).
Proof.
  unfold Microfix.microfix_company.
  destruct (wordList_txt files) as [text|]; [|eauto].
  destruct (wordList_jsonl files) as [items|]; [|eauto].
  intros [H|H]; discriminate.
Qed.

Lemma pdf_step_without_text company pdf acc :
  Extract.pages_with_text (snd (Extract.extract_pdf_pages_text U pdf)) = 0 ->
  Extract.pdf_step U tokenize company pdf acc
  = inr {| Extract.counter := Extract.counter acc;
           Extract.first_context := Extract.first_context acc;
           Extract.pdf_infos :=
             Extract.pdf_infos acc
             ++ [snd (Extract.extract_pdf_pages_text U pdf)];
           Extract.notes :=
             Extract.notes acc
             ++ [Extract.note_no_text (Extract.pdf_name pdf)] |}.
Proof.
  intros H. unfold Extract.pdf_step.
  destruct (Extract.extract_pdf_pages_text U pdf) as [pages info].
  simpl in H. rewrite H. reflexivity.
Qed.

(** C8: each batch stops with [SystemExit], the files untouched, when its
    root directory is absent or has no subdirectory; [microfix_company]
    raises [FileNotFoundError] when either artifact is missing, and the
    batch stops there, with the files as the directories before left them;
    a document without a page of text adds a note and the loop goes on
    with the next document. *)
Theorem C8_roots_and_artifacts_fatal_empty_document_noted
    (RESOURCES_DIR OUTPUT_DIR : str) (out : option (gmap (list N) Artifacts))
    (dirs : gmap (list N) Artifacts) (pre : list (str * Artifacts))
    (name : str) (files : Artifacts) (post : list (str * Artifacts))
    (out1 : option (gmap (list N) Artifacts))
    (company : str) (pdf : Extract.Pdf) (rest : list Extract.Pdf)
    (acc : Extract.Acc) :
  sorted (fun a b => str_leb (fst a) (fst b)) (map_to_list dirs)
  = pre ++ (name, files) :: post ->
  run_batch pre (Microfix.main_step U OUTPUT_DIR) (Some dirs) = (out1, inr tt) ->
  wordList_txt (artifacts_of out1 name) = None
  \/ wordList_jsonl (artifacts_of out1 name) = None ->
  Extract.pages_with_text (snd (Extract.extract_pdf_pages_text U pdf)) = 0 ->
  Extract.main U tokenize RESOURCES_DIR None out
  = (out, inl (SystemExit (u "resources が見つかりません: " ++ RESOURCES_DIR)))
  /\ Extract.main U tokenize RESOURCES_DIR (Some ∅) out
     = (out, inl (SystemExit (u "企業フォルダが見つかりません: " ++ RESOURCES_DIR)))
  /\ Microfix.main U OUTPUT_DIR None
     = (None, inl (SystemExit (u "output が見つかりません: " ++ OUTPUT_DIR)))
  /\ Microfix.main U OUTPUT_DIR (Some ∅)
     = (Some ∅, inl (SystemExit (u "企業ディレクトリがありません: " ++ OUTPUT_DIR)))
  /\ (exists path,
        Microfix.microfix_company U OUTPUT_DIR name (artifacts_of out1 name)
        = inl (FileNotFoundError path)
        /\ Microfix.main U OUTPUT_DIR (Some dirs)
           = (out1, inl (FileNotFoundError path)))
  /\ for_each (pdf :: rest) (Extract.pdf_step U tokenize company) acc
     = for_each rest (Extract.pdf_step U tokenize company)
         {| Extract.counter := Extract.counter acc;
            Extract.first_context := Extract.first_context acc;
            Extract.pdf_infos :=
              Extract.pdf_infos acc
              ++ [snd (Extract.extract_pdf_pages_text U pdf)];
            Extract.notes :=
              Extract.notes acc ++ [Extract.note_no_text (Extract.pdf_name pdf)] |}.
Proof.
  intros Hsorted Hpre Hmissing Hscan.
  split; [reflexivity|].
  split; [unfold Extract.main; rewrite map_to_list_empty; reflexivity|].
  split; [reflexivity|].
  split; [unfold Microfix.main; rewrite map_to_list_empty; reflexivity|].
  split.
  - destruct (microfix_company_missing OUTPUT_DIR name _ Hmissing) as [path E].
    exists path. split; [exact E|].
    unfold Microfix.main. rewrite Hsorted.
    rewrite bool_decide_eq_false_2 by (destruct pre; discriminate).
    rewrite run_batch_app, Hpre. simpl. rewrite E. reflexivity.
  - rewrite for_each_cons, (pdf_step_without_text _ _ _ Hscan), bind_inr.
    reflexivity.
Qed.

End ErrorTheorems.

(** Artifacts of an entity: five lines and two records. *)
Definition sample_files : Artifacts :=
  {| wordList_txt := Some (u "売上高
 増加
増加
当社
(3)
");
     wordList_jsonl :=
       Some [JObj [(u "word", JStr (u "増加"));
                   (u "description", JStr (u "03-1234-5678 あああああああああ"));
                   (u "metadata", JObj [(u "pos", JStr (u "名詞"))])];
             JObj [(u "word", JStr (u "売上高"));
                   (u "metadata", JObj [(u "pos", JStr (u "名詞"))])]] |}.

Definition sample_run : exn + Artifacts * Microfix.FixStats :=
  Eval vm_compute in
    Microfix.microfix_company sample_db (u "/r/output") (u "1_ExampleCo")
      sample_files.

Definition sample_fixed : Artifacts :=
  match sample_run with
  | inr (files, _) => files
  | inl _ => sample_files
  end.

Definition sample_stats : Microfix.FixStats :=
  match sample_run with
  | inr (_, stats) => stats
  | inl _ =>
    {| Microfix.words_in := 0; Microfix.words_out := 0; Microfix.jsonl_in := 0;
       Microfix.jsonl_out := 0; Microfix.desc_dropped := 0;
       Microfix.words_dropped := 0 |}
  end.

Definition missing_files : Artifacts :=
  {| wordList_txt := Some (u "売上高
"); wordList_jsonl := None |}.

Definition sample_dirs : gmap (list N) Artifacts :=
  list_to_map [(u "1_ExampleCo", sample_files); (u "2_Missing", missing_files);
               (u "3_Other", sample_files)].

(** A scanned document: no text at all. *)
Definition scanned_pdf : Extract.Pdf :=
  {| Extract.pdf_name := u "scan.pdf"; Extract.pdf_raw := None |}.

Lemma C8_witness :
  exists path,
    Microfix.main sample_db (u "/r/output") (Some sample_dirs)
    = (fst (run_batch [(u "1_ExampleCo", sample_files)]
              (Microfix.main_step sample_db (u "/r/output")) (Some sample_dirs)),
       inl (FileNotFoundError path)).
Proof.
  destruct (C8_roots_and_artifacts_fatal_empty_document_noted
              sample_db sample_tokenizer (u "/r/resources") (u "/r/output") None
              sample_dirs [(u "1_ExampleCo", sample_files)] (u "2_Missing")
              missing_files [(u "3_Other", sample_files)]
              (fst (run_batch [(u "1_ExampleCo", sample_files)]
                      (Microfix.main_step sample_db (u "/r/output"))
                      (Some sample_dirs)))
              (u "ExampleCo") scanned_pdf [two_page_pdf]
              {| Extract.counter := []; Extract.first_context := ∅;
                 Extract.pdf_infos := []; Extract.notes := [] |})
    as (_ & _ & _ & _ & (path & _ & H) & _).
  - vm_compute. reflexivity.
  - vm_compute. reflexivity.
  - right. vm_compute. reflexivity.
  - vm_compute. reflexivity.
  - exists path. exact H.
Defined.


Lemma C10_witness :
  exists text items_in text' items_out,
    wordList_txt sample_files = Some text
    /\ wordList_jsonl sample_files = Some items_in
    /\ wordList_txt sample_fixed = Some text'
    /\ wordList_jsonl sample_fixed = Some items_out
    /\ NoDup (Microfix._load_words text')
    /\ Microfix._load_words text' `sublist_of` Microfix._load_words text
    /\ forall r', r' ∈ items_out ->
         exists r, r ∈ items_in
           /\ (r' = r
               \/ exists fields,
                    r = JObj fields
                    /\ r' = JObj (dict_pop (u "description") fields)).
Proof.
  apply (C10_microfix_only_removes sample_db (u "/r/output") (u "1_ExampleCo")
           sample_files sample_fixed sample_stats).
  vm_compute. reflexivity.
Defined.



(** ** The two artifacts agree *)

Section ConsistencyTheorems.

Context (U : UnicodeDB) (tokenize : str -> list Extract.Token).





Lemma filter_sublist {A} (f : A -> bool) (l : list A) :
  List.filter f l `sublist_of` l.
Proof.
  induction l as [|x l IH]; simpl; [constructor|].
  destruct (f x); [apply sublist_skip | apply sublist_cons]; exact IH.
Qed.







(** The words of the records written by pass 2: the kept words that have
    a record. *)
Lemma ordered_items_words keep items :
  exists ws,
    map word_of (ordered_items keep items) = map Some ws
    /\ ws `sublist_of` keep
    /\ ((forall w, w ∈ keep -> is_Some (List.find (word_is w) items)) ->
        ws = keep).
Proof.
  unfold ordered_items. induction keep as [|k keep (ws & Hmap & Hsub & Hall)].
  - exists []. repeat split; constructor.
  - simpl. destruct (List.find (word_is k) items) as [item|] eqn:E.
    + exists (k :: ws). apply find_word_is in E. destruct E as [_ Hk].
      split; [simpl; rewrite Hk; f_equal; exact Hmap|].
      split; [apply sublist_skip, Hsub|].
      intros H. f_equal. apply Hall. intros w Hw. apply H. constructor. exact Hw.
    + exists ws. split; [exact Hmap|]. split; [apply sublist_cons, Hsub|].
      intros H. exfalso.
      destruct (H k ltac:(constructor)) as [x Hx]. congruence.
Qed.



End ConsistencyTheorems.





(** * Further properties of the two scripts *)

(** ** A folder without documents *)

Section EmptyFolder.

Context (U : UnicodeDB) (tokenize : str -> list Extract.Token).

(** X1: A folder without PDFs gives a result without the keys [entries] and
    [stats]; [write_outputs] then writes an empty [wordList.txt], raises
    [KeyError] at line 487 and leaves [wordList.jsonl] as it was, and the
    batch of [main] ends there. *)
Theorem folder_without_pdf_raises_key_error
    (name : str) (out : option (gmap (list N) Artifacts))
    (rest : list (str * list Extract.Pdf)) :
  (exists result,
      Extract.process_company_dir U tokenize
        {| Extract.dir_name := name; Extract.dir_pdfs := [] |} = inr result
      /\ Extract.terms result = []
      /\ Extract.entries result = None
      /\ Extract.stats result = None
      /\ Extract.res_notes result = [u "PDFが見つかりませんでした。"])
  /\ run_batch ((name, []) :: rest) (Extract.main_step U tokenize) out
     = (write_txt name [10%N] out, inl (KeyError (u "entries")))
  /\ wordList_txt (artifacts_of (write_txt name [10%N] out) name)
     = Some [10%N]
  /\ wordList_jsonl (artifacts_of (write_txt name [10%N] out) name)
     = wordList_jsonl (artifacts_of out name).
Proof.
  split; [eexists; split; [reflexivity|]; repeat split|].
  split; [reflexivity|].
  unfold write_txt, artifacts_of. simpl. rewrite lookup_insert_eq.
  split; reflexivity.
Qed.

End EmptyFolder.

(** ** Tagging *)

Section Tagging.

Context (U : UnicodeDB).

Definition metric_markers : list str := Eval vm_compute in
  map u ["高"; "額"; "利益"; "損失"; "収益"; "売上"; "費"; "コスト"; "率"; "比率";
         "件数"; "人数"; "数量"; "単価"; "KPI"; "ROE"; "ROA"; "EBITDA"; "EPS";
         "PER"; "PBR"; "CF"; "FCF"]%string.
Definition event_markers : list str := Eval vm_compute in
  map u ["減損"; "買収"; "合併"; "取得"; "売却"; "訴訟"; "計上"; "発生"; "適用"]%string.
Definition structure_markers : list str := Eval vm_compute in
  map u ["セグメント"; "方針"; "戦略"; "計画"; "モデル"; "システム"; "プロセス";
         "体制"; "ガバナンス"; "内部統制"]%string.
Definition entity_markers : list str := Eval vm_compute in
  map u ["委員会"; "グループ"; "子会社"; "連結子会社"; "部"; "本部"; "室"; "会"]%string.

Lemma any_in_marker term markers m :
  In m markers -> contains term m = true -> Extract.any_in term markers = true.
Proof.
  intros Hin Hc. unfold Extract.any_in. apply existsb_exists. eauto.
Qed.

(** The concept type goes by the first marker set that has a marker in
    the term, in the order Metric, Event, Structure, Entity: a term with a
    metric marker is a Metric whatever else it contains, and so on down;
    without any marker it is Other. *)
Theorem concept_type_first_match_wins term :
  (forall m, In m metric_markers -> contains term m = true ->
     Extract._concept_type term = u "Metric")
  /\ (forall m, Extract.any_in term metric_markers = false ->
        In m event_markers -> contains term m = true ->
        Extract._concept_type term = u "Event")
  /\ (forall m, Extract.any_in term metric_markers = false ->
        Extract.any_in term event_markers = false ->
        In m structure_markers -> contains term m = true ->
        Extract._concept_type term = u "Structure")
  /\ (forall m, Extract.any_in term metric_markers = false ->
        Extract.any_in term event_markers = false ->
        Extract.any_in term structure_markers = false ->
        In m entity_markers -> contains term m = true ->
        Extract._concept_type term = u "Entity")
  /\ (Extract.any_in term metric_markers = false ->
      Extract.any_in term event_markers = false ->
      Extract.any_in term structure_markers = false ->
      Extract.any_in term entity_markers = false ->
      Extract._concept_type term = u "Other").
Proof.
  assert (E : Extract._concept_type term
              = if Extract.any_in term metric_markers then u "Metric"
                else if Extract.any_in term event_markers then u "Event"
                else if Extract.any_in term structure_markers then u "Structure"
                else if Extract.any_in term entity_markers then u "Entity"
                else u "Other") by reflexivity.
  rewrite E. repeat split.
  - intros m Hin Hc. rewrite (any_in_marker _ _ _ Hin Hc). reflexivity.
  - intros m -> Hin Hc. rewrite (any_in_marker _ _ _ Hin Hc). reflexivity.
  - intros m -> -> Hin Hc. rewrite (any_in_marker _ _ _ Hin Hc). reflexivity.
  - intros m -> -> -> Hin Hc. rewrite (any_in_marker _ _ _ Hin Hc).
    reflexivity.
  - intros -> -> -> ->. reflexivity.
Qed.

Lemma concept_type_witness :
  Extract._concept_type (u "利益システム") = u "Metric".
Proof.
  apply (proj1 (concept_type_first_match_wins (u "利益システム")) (u "利益")).
  - vm_compute. tauto.
  - vm_compute. reflexivity.
Defined.

(** X2: The record of a term: [word], then [description] exactly when a
    context is stored for the term, then [metadata], in which [pos] is
    always the noun tag and [category] is present exactly when
    [_category] gives one; no key holds a null. *)
Theorem make_entry_fields (company : str) (fc : gmap (list N) (list N))
    (term : str) :
  Extract.make_entry U company fc term
  = JObj ([(u "word", JStr term)]
          ++ match fc !! term with
             | Some ctx => [(u "description", JStr ctx)]
             | None => []
             end
          ++ [(u "metadata",
               JObj ([(u "pos", JStr (u "名詞"));
                      (u "conceptType", JStr (Extract._concept_type term))]
                     ++ match Extract._category term with
                        | Some c => [(u "category", JStr c)]
                        | None => []
                        end
                     ++ [(u "source", JStr (u "有価証券報告書"));
                         (u "company", JStr company)]))]).
Proof.
  unfold Extract.make_entry. cbv zeta.
  assert (Hpos : Extract._pos U term = u "名詞").
  { unfold Extract._pos. destruct (fullmatch _ term); [reflexivity|].
    destruct (existsb _ term); reflexivity. }
  rewrite Hpos.
  generalize (Extract._concept_type term). intros ct.
  destruct (Extract._category term) as [c|], (fc !! term) as [ctx|];
    reflexivity.
Qed.

End Tagging.

Section Category.

Definition pl_markers : list str := Eval vm_compute in
  map u ["売上"; "利益"; "収益"; "費用"; "原価"; "営業"; "経常"]%string.
Definition bs_markers : list str := Eval vm_compute in
  map u ["資産"; "負債"; "純資産"; "のれん"; "株主資本"]%string.
Definition governance_markers : list str := Eval vm_compute in
  map u ["ガバナンス"; "内部統制"; "コンプライアンス"]%string.
Definition business_markers : list str := Eval vm_compute in
  map u ["セグメント"; "KPI"; "事業"; "顧客"; "戦略"]%string.

(** Whether the cash-flow rule of line 360 applies. *)
Definition cash_flow_rule (term : str) : bool :=
  contains term (u "キャッシュ") || endswith term (u "CF").

Lemma contains_trans a b c :
  contains a b = true -> contains b c = true -> contains a c = true.
Proof.
  intros Hab Hbc.
  assert (Hpre : forall x y z, startswith x y = true -> startswith y z = true ->
                               startswith x z = true).
  { intros x y z. revert x z. induction y as [|c0 y IH]; intros x z Hxy Hyz.
    - destruct z; [destruct x; reflexivity | discriminate].
    - destruct x as [|c1 x]; [discriminate|]. simpl in Hxy.
      apply andb_true_iff in Hxy. destruct Hxy as [E Hxy].
      destruct z as [|c2 z]; [reflexivity|]. simpl in Hyz.
      apply andb_true_iff in Hyz. destruct Hyz as [E' Hyz].
      simpl. apply N.eqb_eq in E, E'. subst.
      rewrite N.eqb_refl. simpl. eapply IH; eassumption. }
  assert (Hstart : forall x y, startswith x y = true ->
                     forall z, contains y z = true -> contains x z = true).
  { intros x y. revert x. induction y as [|c0 y IH]; intros x Hxy z Hyz.
    - simpl in Hyz. rewrite orb_false_r in Hyz.
      destruct z; [destruct x; reflexivity | discriminate].
    - destruct x as [|c1 x]; [discriminate|].
      simpl in Hyz. apply orb_true_iff in Hyz. destruct Hyz as [Hyz|Hyz].
      + simpl. apply orb_true_iff. left.
        apply (Hpre (c1 :: x) (c0 :: y) z Hxy Hyz).
      + simpl in Hxy. apply andb_true_iff in Hxy. destruct Hxy as [_ Hxy].
        simpl. apply orb_true_iff. right. apply IH; assumption. }
  revert Hab. induction a as [|c0 a IH]; intros Hab.
  - simpl in Hab. rewrite orb_false_r in Hab. eapply Hstart; eassumption.
  - simpl in Hab. apply orb_true_iff in Hab. destruct Hab as [Hab|Hab].
    + eapply Hstart; eassumption.
    + simpl. apply orb_true_iff. right. apply IH, Hab.
Qed.

(** X3: The category goes by the first rule that applies, in the order PL,
    BS, CF, Risk, Governance, Business, and is absent when none does; the
    third test of the cash-flow rule never decides, since a term with the
    longer marker has the shorter one. *)
Theorem category_first_match_wins term :
  Extract._category term
  = (if Extract.any_in term pl_markers then Some (u "PL")
     else if Extract.any_in term bs_markers then Some (u "BS")
     else if cash_flow_rule term then Some (u "CF")
     else if contains term (u "リスク") then Some (u "Risk")
     else if Extract.any_in term governance_markers then Some (u "Governance")
     else if Extract.any_in term business_markers then Some (u "Business")
     else None)
  /\ (forall m, In m pl_markers -> contains term m = true ->
        Extract._category term = Some (u "PL")).
Proof.
  assert (E : Extract._category term
    = (if Extract.any_in term pl_markers then Some (u "PL")
       else if Extract.any_in term bs_markers then Some (u "BS")
       else if cash_flow_rule term then Some (u "CF")
       else if contains term (u "リスク") then Some (u "Risk")
       else if Extract.any_in term governance_markers then Some (u "Governance")
       else if Extract.any_in term business_markers then Some (u "Business")
       else None)).
  { unfold Extract._category, cash_flow_rule.
    change (map u ["売上"; "利益"; "収益"; "費用"; "原価"; "営業"; "経常"]%string)
      with pl_markers.
    change (map u ["資産"; "負債"; "純資産"; "のれん"; "株主資本"]%string)
      with bs_markers.
    change (map u ["ガバナンス"; "内部統制"; "コンプライアンス"]%string)
      with governance_markers.
    change (map u ["セグメント"; "KPI"; "事業"; "顧客"; "戦略"]%string)
      with business_markers.
    destruct (Extract.any_in term pl_markers); [reflexivity|].
    destruct (Extract.any_in term bs_markers); [reflexivity|].
    destruct (contains term (u "キャッシュ")) eqn:Ec; [reflexivity|].
    destruct (endswith term (u "CF")); [reflexivity|]. simpl.
    destruct (contains term (u "キャッシュ・フロー")) eqn:Ef; [|reflexivity].
    assert (H : contains (u "キャッシュ・フロー") (u "キャッシュ") = true)
      by (vm_compute; reflexivity).
    rewrite (contains_trans _ _ _ Ef H) in Ec. discriminate. }
  split; [exact E|].
  intros m Hin Hc. rewrite E, (any_in_marker _ _ _ Hin Hc). reflexivity.
Qed.

Lemma category_witness :
  Extract._category (u "売上高") = Some (u "PL").
Proof.
  apply (proj2 (category_first_match_wins (u "売上高")) (u "売上")).
  - vm_compute. tauto.
  - vm_compute. reflexivity.
Defined.

End Category.

(** ** Patterns that repeat a character class *)

Section ClassPatterns.

(** The loop of [run] for [Star a]. *)
Definition star_loop (a : re) : nat -> state -> list state :=
  fix loop (fuel : nat) (st : state) : list state :=
    st ::
    match fuel with
    | O => []
    | S k => flat_map (loop k) (List.filter (shorter st) (run a st))
    end.

Lemma run_star a st : run (Star a) st = star_loop a (length (snd st)) st.
Proof. reflexivity. Qed.

(** [a] matches exactly one character, those of the class [q]. *)
Definition class_like (a : re) (q : N -> bool) : Prop :=
  forall prev s st',
    In st' (run a (prev, s))
    <-> exists c t, s = c :: t /\ q c = true /\ st' = (Some c, t).

Lemma class_like_cls p : class_like (Cls p) p.
Proof.
  intros prev s st'. simpl. destruct s as [|c t].
  - split; [intros [] | intros (c & t & H & _); discriminate].
  - destruct (p c) eqn:E; simpl.
    + split.
      * intros [<-|[]]. eauto.
      * intros (c' & t' & [= <- <-] & _ & ->). auto.
    + split; [intros [] |].
      intros (c' & t' & [= <- <-] & H & _). congruence.
Qed.

Lemma class_like_alt a b qa qb :
  class_like a qa -> class_like b qb ->
  class_like (Alt a b) (fun c => qa c || qb c).
Proof.
  intros Ha Hb prev s st'. simpl. rewrite in_app_iff, (Ha prev s st'), (Hb prev s st').
  split.
  - intros [(c & t & -> & H & ->)|(c & t & -> & H & ->)];
      exists c, t; rewrite H, ?orb_true_r; auto.
  - intros (c & t & -> & H & ->). apply orb_true_iff in H.
    destruct H as [H|H]; [left|right]; eauto.
Qed.

Lemma existsb_flat_map {A B} (P : B -> bool) (f : A -> list B) (l : list A) :
  existsb P (flat_map f l) = true
  <-> exists x, In x l /\ existsb P (f x) = true.
Proof.
  rewrite existsb_exists. split.
  - intros (y & Hy & HP). apply in_flat_map in Hy. destruct Hy as (x & Hx & Hy).
    exists x. split; [exact Hx|]. apply existsb_exists. eauto.
  - intros (x & Hx & HP). apply existsb_exists in HP. destruct HP as (y & Hy & HP).
    exists y. split; [|exact HP]. apply in_flat_map. eauto.
Qed.

(** The repetition ends the subject exactly when all of it is in the
    class. *)
Lemma star_class_end a q :
  class_like a q ->
  forall fuel s prev, (length s <= fuel)%nat ->
    existsb at_end (star_loop a fuel (prev, s)) = true <-> forallb q s = true.
Proof.
  intros Ha. induction fuel as [|k IH]; intros s prev Hlen.
  - destruct s; [|simpl in Hlen; lia]. simpl. tauto.
  - destruct s as [|c t]; [simpl; tauto|].
    change (star_loop a (S k) (prev, c :: t))
      with ((prev, c :: t)
            :: flat_map (star_loop a k)
                 (List.filter (shorter (prev, c :: t)) (run a (prev, c :: t)))).
    simpl existsb. simpl forallb. rewrite existsb_flat_map, andb_true_iff.
    split.
    + intros (st' & Hin & Hend). apply filter_In in Hin.
      destruct Hin as [Hin _]. apply Ha in Hin.
      destruct Hin as (c' & t' & [= <- <-] & Hq & ->).
      split; [exact Hq|]. apply (IH t (Some c)); [simpl in Hlen; lia | exact Hend].
    + intros [Hq Ht]. exists (Some c, t). split.
      * apply filter_In. split; [apply Ha; eauto|].
        unfold shorter. simpl. apply Nat.ltb_lt. lia.
      * apply (IH t (Some c)); [simpl in Hlen; lia | exact Ht].
Qed.

Lemma plus_class_end a q prev s :
  class_like a q ->
  existsb at_end (run (Plus a) (prev, s)) = true
  <-> s <> [] /\ forallb q s = true.
Proof.
  intros Ha. unfold Plus. simpl run. rewrite existsb_flat_map. split.
  - intros (st' & Hin & Hend). apply Ha in Hin.
    destruct Hin as (c & t & -> & Hq & ->).
    split; [discriminate|]. simpl. rewrite Hq. simpl.
    change (existsb at_end (star_loop a (length t) (Some c, t)) = true) in Hend.
    apply (star_class_end a q Ha) in Hend; [exact Hend | lia].
  - intros [Hne Hall]. destruct s as [|c t]; [congruence|].
    simpl in Hall. apply andb_true_iff in Hall. destruct Hall as [Hq Ht].
    exists (Some c, t). split; [apply Ha; eauto|].
    change (existsb at_end (star_loop a (length t) (Some c, t)) = true).
    apply (star_class_end a q Ha); [lia | exact Ht].
Qed.

(** [re.fullmatch(r"[class]+", s)] and [re.fullmatch(r"^[class]+$", s)]
    hold for the non-empty strings of the class. *)
Lemma fullmatch_plus a q s :
  class_like a q ->
  fullmatch (Plus a) s = true <-> s <> [] /\ forallb q s = true.
Proof. intros Ha. unfold fullmatch. apply plus_class_end, Ha. Qed.

Lemma fullmatch_anchored_plus a q s :
  class_like a q ->
  fullmatch (Seq [Bol; Plus a; Eol]) s = true <-> s <> [] /\ forallb q s = true.
Proof.
  intros Ha. rewrite <- (plus_class_end a q None s Ha).
  unfold fullmatch. change (Seq [Bol; Plus a; Eol]) with (Cat Bol (Cat (Plus a) Eol)).
  change (run (Cat Bol (Cat (Plus a) Eol)) (None, s))
    with (flat_map (run Eol) (run (Plus a) (None, s)) ++ []).
  rewrite app_nil_r, existsb_flat_map, existsb_exists. split.
  - intros (st & Hin & Hend). exists st. split; [exact Hin|].
    destruct st as [p [|c r]]; [reflexivity|].
    simpl in Hend. destruct c as [|c]; try discriminate.
    destruct r; repeat (destruct c as [c|c|]; try discriminate).
  - intros (st & Hin & Hend). exists st. split; [exact Hin|].
    destruct st as [p [|c r]]; [reflexivity | discriminate].
Qed.

End ClassPatterns.

(** ** Token kinds and purely numeric or kana terms *)

Section CharacterLevel.

Context (U : UnicodeDB).

Definition is_ascii_alnum (c : N) : bool :=
  (65 <=? c)%N && (c <=? 90)%N
  || ((97 <=? c)%N && (c <=? 122)%N || (48 <=? c)%N && (c <=? 57)%N).

Lemma ascii_alnum_class : class_like ascii_alnum is_ascii_alnum.
Proof.
  unfold ascii_alnum, is_ascii_alnum, Range. simpl AnyOf.
  apply (class_like_alt _ _ _ _ (class_like_cls _)).
  apply (class_like_alt _ _ _ _ (class_like_cls _) (class_like_cls _)).
Qed.

Lemma bool_iff_eq (a b : bool) : (a = true <-> b = true) -> a = b.
Proof. destruct a, b; intuition congruence. Qed.

Lemma fullmatch_ascii_alnum s :
  fullmatch (Plus ascii_alnum) s
  = negb (bool_decide (s = [])) && forallb is_ascii_alnum s.
Proof.
  apply bool_iff_eq.
  rewrite (fullmatch_plus _ _ s ascii_alnum_class), andb_true_iff,
    negb_true_iff, bool_decide_eq_false. tauto.
Qed.

(** X4: The kind of a token: a noun token ([_is_noun_token]) and a token of
    ASCII letters and digits are of kind noun, another token that is a
    connector symbol is of kind connector, and any other token is a
    boundary. *)
Theorem kind_of_token token :
  Extract.kind_of token
  = if Extract._is_noun_token token then Some Extract.noun
    else if negb (bool_decide (Extract.surface token = []))
            && forallb is_ascii_alnum (Extract.surface token)
         then Some Extract.noun
    else if mem (Extract.surface token) Extract.CONNECTORS
         then Some Extract.connector
    else None.
Proof.
  unfold Extract.kind_of, Extract._is_termish_surface.
  destruct (Extract._is_noun_token token); [reflexivity|].
  rewrite fullmatch_ascii_alnum.
  destruct (decide (Extract.surface token = [])) as [E|E].
  - rewrite E. reflexivity.
  - rewrite (bool_decide_eq_false_2 _ E).
    set (m := mem (Extract.surface token) Extract.CONNECTORS).
    set (a := forallb is_ascii_alnum (Extract.surface token)).
    destruct m, a; reflexivity.
Qed.

(** The characters of [RE_ONLY_NUM_PUNCT] of pass 1 and of pass 2. *)
Definition numeric_char (c : N) : bool :=
  isdecimal U c || bool_decide (c ∈ u ",.-–—ー").
Definition numeric_char2 (c : N) : bool :=
  isdecimal U c || bool_decide (c ∈ u ",.-–—/").
Definition hiragana_char (c : N) : bool := (12353 <=? c)%N && (c <=? 12438)%N.

Ltac cascade :=
  repeat match goal with
         | |- (if ?c then true else _) = true =>
           let E := fresh "E" in destruct c eqn:E; [reflexivity|]
         end.

(** X5: Pass 1 rejects every term that, trimmed, consists only of digits and
    the punctuation [, . - – — ー], or only of hiragana. *)
Theorem looks_bad_rejects_numeric_and_hiragana t company :
  forallb numeric_char (strip t) = true
  \/ forallb hiragana_char (strip t) = true ->
  Extract._looks_bad U t company = true.
Proof.
  intros H. unfold Extract._looks_bad. cbv zeta. cascade. exfalso.
  apply bool_decide_eq_false in E0.
  destruct H as [H|H].
  - assert (Hm : fullmatch (Extract.RE_ONLY_NUM_PUNCT U) (strip t) = true).
    { apply (fullmatch_anchored_plus _ numeric_char).
      - apply (class_like_alt _ _ _ _ (class_like_cls _) (class_like_cls _)).
      - auto. }
    congruence.
  - assert (Hm : fullmatch Extract.RE_ONLY_HIRAGANA (strip t) = true).
    { apply (fullmatch_anchored_plus _ hiragana_char).
      - apply class_like_cls.
      - auto. }
    congruence.
Qed.

(** X6: Pass 2 rejects every word that, trimmed, consists only of digits and
    the punctuation [, . - – — /]. *)
Theorem noisy_word_rejects_numeric w company :
  forallb numeric_char2 (strip w) = true ->
  Microfix._is_noisy_word U w company = true.
Proof.
  intros H. unfold Microfix._is_noisy_word. cbv zeta. cascade. exfalso.
  apply bool_decide_eq_false in E.
  assert (Hm : fullmatch (Microfix.RE_ONLY_NUM_PUNCT U) (strip w) = true).
  { apply (fullmatch_anchored_plus _ numeric_char2).
    - apply (class_like_alt _ _ _ _ (class_like_cls _) (class_like_cls _)).
    - auto. }
  congruence.
Qed.

End CharacterLevel.

Lemma looks_bad_rejects_numeric_witness :
  Extract._looks_bad sample_db (u " 1,234.5 ") (u "ExampleCo") = true.
Proof.
  apply (looks_bad_rejects_numeric_and_hiragana sample_db).
  left. vm_compute. reflexivity.
Defined.

Lemma noisy_word_rejects_numeric_witness :
  Microfix._is_noisy_word sample_db (u "12/34") (u "ExampleCo") = true.
Proof.
  apply (noisy_word_rejects_numeric sample_db).
  vm_compute. reflexivity.
Defined.

(** ** Segments and their candidates *)

(** [_iter_term_sequences], lines 152-171; the state is
    [(seq, sequences)]. *)
Definition iter_step (st : list str * list (list str)) (token : Extract.Token)
  : list str * list (list str) :=
  let '(seq, sequences) := st in
  let surface := Extract.surface token in
  if Extract._is_noun_token token || Extract._is_termish_surface surface
  then (seq ++ [surface], sequences)
  else if negb (bool_decide (seq = [])) then ([], sequences ++ [seq])
  else (seq, sequences).

Definition _iter_term_sequences (tokenize : str -> list Extract.Token)
    (text : str) : list (list str) :=
  let '(seq, sequences) :=
    fold_left iter_step (Extract.tokens_of tokenize text) ([], []) in
  if negb (bool_decide (seq = [])) then sequences ++ [seq] else sequences.

Section Segments.

Context (tokenize : str -> list Extract.Token).

(** The maximal runs of term-ish tokens, each token with its kind; [cur]
    is the run being read. *)
Fixpoint runs_from (cur : list (str * Extract.kind))
    (tokens : list Extract.Token) : list (list (str * Extract.kind)) :=
  match tokens with
  | [] => match cur with [] => [] | _ => [cur] end
  | token :: rest =>
    match Extract.kind_of token with
    | Some k => runs_from (cur ++ [(Extract.surface token, k)]) rest
    | None => match cur with [] => [] | _ => [cur] end ++ runs_from [] rest
    end
  end.

Definition run_candidates (r : list (str * Extract.kind)) : list str :=
  segment_candidates (map fst r) (map snd r).

Lemma run_candidates_flush cur candidates :
  Extract.flush_segment (map fst cur) (map snd cur) candidates
  = inr (candidates
         ++ flat_map run_candidates match cur with [] => [] | _ => [cur] end).
Proof.
  rewrite flush_segment_closed by (rewrite !length_map; reflexivity).
  destruct cur as [|x cur]; [reflexivity|].
  simpl flat_map. rewrite app_nil_r. reflexivity.
Qed.

Lemma extract_loop_runs tokens :
  forall cur candidates,
    (for_each tokens Extract.extract_step
       (map fst cur, map snd cur, candidates)
     ≫= fun '(segment, kinds, candidates) =>
          Extract.flush_segment segment kinds candidates)
    = inr (candidates ++ flat_map run_candidates (runs_from cur tokens)).
Proof.
  induction tokens as [|token tokens IH]; intros cur candidates.
  - rewrite for_each_nil, bind_inr. apply run_candidates_flush.
  - rewrite for_each_cons. simpl runs_from.
    destruct (Extract.kind_of token) as [k|] eqn:Ek.
    + rewrite (extract_step_kind _ _ _ _ _ Ek), bind_inr.
      specialize (IH (cur ++ [(Extract.surface token, k)]) candidates).
      rewrite !map_app in IH. exact IH.
    + rewrite (extract_step_boundary _ _ _ _ Ek)
        by (rewrite !length_map; reflexivity).
      rewrite bind_inr. specialize (IH [] (candidates ++ run_candidates cur)).
      simpl map in IH. fold (run_candidates cur).
      rewrite IH, flat_map_app, <- app_assoc.
      f_equal. f_equal. destruct cur; [reflexivity|].
      simpl. rewrite app_nil_r. reflexivity.
Qed.

Lemma termish_kind token :
  Extract._is_noun_token token
  || Extract._is_termish_surface (Extract.surface token)
  = match Extract.kind_of token with Some _ => true | None => false end.
Proof.
  unfold Extract.kind_of.
  destruct (Extract._is_noun_token token); [reflexivity|].
  destruct (Extract._is_termish_surface (Extract.surface token)); reflexivity.
Qed.

Lemma fold_left_cons {A S} (f : S -> A -> S) x l s :
  fold_left f (x :: l) s = fold_left f l (f s x).
Proof. reflexivity. Qed.

Lemma iter_step_kind token k seq sequences :
  Extract.kind_of token = Some k ->
  iter_step (seq, sequences) token = (seq ++ [Extract.surface token], sequences).
Proof. intros H. unfold iter_step. rewrite termish_kind, H. reflexivity. Qed.

Lemma iter_step_boundary token seq sequences :
  Extract.kind_of token = None ->
  iter_step (seq, sequences) token
  = if negb (bool_decide (seq = [])) then ([], sequences ++ [seq])
    else (seq, sequences).
Proof. intros H. unfold iter_step. rewrite termish_kind, H. reflexivity. Qed.

Lemma iter_loop_runs tokens :
  forall cur sequences,
    (let '(seq, sequences) :=
       fold_left iter_step tokens (map fst cur, sequences) in
     if negb (bool_decide (seq = [])) then sequences ++ [seq] else sequences)
    = sequences ++ map (map fst) (runs_from cur tokens).
Proof.
  induction tokens as [|token tokens IH]; intros cur sequences.
  - simpl. destruct cur; simpl; [rewrite app_nil_r|]; reflexivity.
  - rewrite fold_left_cons. simpl runs_from.
    destruct (Extract.kind_of token) as [k|] eqn:Ek.
    + rewrite (iter_step_kind _ _ _ _ Ek).
      specialize (IH (cur ++ [(Extract.surface token, k)]) sequences).
      rewrite map_app in IH. exact IH.
    + rewrite (iter_step_boundary _ _ _ Ek). destruct cur as [|x cur].
      * apply (IH [] sequences).
      * change (negb (bool_decide (map fst (x :: cur) = []))) with true.
        cbv iota.
        etransitivity; [apply (IH [] (sequences ++ [map fst (x :: cur)]))|].
        rewrite <- app_assoc. reflexivity.
Qed.

(** X7: The candidates of a text are those of its maximal runs of term-ish
    tokens, run after run; a boundary token ends a run and adds nothing,
    and the sequences [_iter_term_sequences] returns are the surfaces of
    the same runs. [extract_candidates] never raises. *)
Theorem candidates_by_runs text :
  Extract.extract_candidates tokenize text
  = inr (flat_map run_candidates
           (runs_from [] (Extract.tokens_of tokenize text)))
  /\ _iter_term_sequences tokenize text
     = map (map fst) (runs_from [] (Extract.tokens_of tokenize text)).
Proof.
  split.
  - unfold Extract.extract_candidates.
    apply (extract_loop_runs (Extract.tokens_of tokenize text) [] []).
  - unfold _iter_term_sequences.
    apply (iter_loop_runs (Extract.tokens_of tokenize text) [] []).
Qed.

Lemma flat_map_length_le {A B} (f : A -> list B) (l : list A) n :
  (forall x, In x l -> length (f x) <= n)%nat ->
  (length (flat_map f l) <= n * length l)%nat.
Proof.
  induction l as [|x l IH]; intros H; simpl; [lia|].
  rewrite length_app. pose proof (H x (or_introl eq_refl)).
  assert (length (flat_map f l) <= n * length l)%nat
    by (apply IH; intros; apply H; right; assumption).
  lia.
Qed.

(** X8: What one segment adds, for [segment] and [kinds] of one length: at
    most two candidates for each position, namely the surface of a noun
    that is no connector symbol, and the text of the longest window at
    the position (six tokens, or up to the end of the segment) when it
    has two nouns: not empty, of at most 40 characters, without a
    connector character at either end. *)
Theorem segment_candidates_shape segment kinds candidates :
  length segment = length kinds ->
  Extract.flush_segment segment kinds candidates
  = inr (candidates ++ segment_candidates segment kinds)
  /\ (length (segment_candidates segment kinds) <= 2 * length segment)%nat
  /\ forall c, In c (segment_candidates segment kinds) ->
       exists i, (i < length segment)%nat
         /\ ((segment !! i = Some c /\ kinds !! i = Some Extract.noun
              /\ mem c Extract.CONNECTORS = false)
             \/ (c = window_text (firstn 6 (skipn i segment))
                 /\ 2 <= nouns_in (firstn 6 (skipn i kinds))
                 /\ c <> [] /\ len c <= Extract.MAX_TERM_CHARS
                 /\ stripped
                      (fun x => bool_decide (x ∈ Extract.CONNECTOR_CHARS)) c)).
Proof.
  intros Hlen. split; [apply flush_segment_closed, Hlen|].
  assert (Hpos : forall x, In x (imap (fun i sk => (i, sk)) (zip segment kinds)) ->
            let '(i, (s, k)) := x in
            (i < length segment)%nat /\ segment !! i = Some s
            /\ kinds !! i = Some k).
  { intros [i [s k]] Hin.
    apply list_elem_of_In, elem_of_lookup_imap in Hin.
    destruct Hin as (i' & sk & [= -> <-] & Hlook).
    apply lookup_zip_with_Some in Hlook.
    destruct Hlook as (s' & k' & [= <- <-] & Hs & Hk).
    split; [eapply lookup_lt_Some; exact Hs | auto]. }
  unfold segment_candidates. split.
  - replace (length segment)
      with (length (imap (fun i sk => (i, sk)) (zip segment kinds)))
      by (rewrite length_imap, length_zip; lia).
    apply flat_map_length_le. intros [i [s k]] _. unfold emitted.
    rewrite length_app.
    destruct (bool_decide (k = Extract.noun) && negb (mem s Extract.CONNECTORS));
      match goal with
      | |- context [if ?c then [?p] else []] => destruct c
      end; simpl; lia.
  - intros c Hc. apply in_flat_map in Hc. destruct Hc as ([i [s k]] & Hin & Hc).
    destruct (Hpos _ Hin) as (Hi & Hs & Hk). exists i. split; [exact Hi|].
    unfold emitted in Hc. apply in_app_or in Hc. destruct Hc as [Hc|Hc].
    + left.
      destruct (bool_decide (k = Extract.noun) && negb (mem s Extract.CONNECTORS))
        eqn:E; [|destruct Hc].
      destruct Hc as [<-|[]]. apply andb_true_iff in E. destruct E as [E1 E2].
      apply bool_decide_eq_true_1 in E1. apply negb_true_iff in E2.
      subst k. auto.
    + right. cbv zeta in Hc.
      match type of Hc with
      | In _ (if ?b then _ else _) => destruct b eqn:E; [|destruct Hc]
      end.
      destruct Hc as [<-|[]].
      apply andb_true_iff in E. destruct E as [E E3].
      apply andb_true_iff in E. destruct E as [E1 E2].
      apply Z.leb_le in E1, E3. apply negb_true_iff, bool_decide_eq_false in E2.
      repeat split; auto; apply strip_by_stripped.
Qed.

End Segments.

Lemma segment_candidates_shape_witness :
  (length (segment_candidates [u "A"; u "B"; u "C"]
             [Extract.noun; Extract.noun; Extract.noun]) <= 2 * 3)%nat.
Proof.
  apply (segment_candidates_shape [u "A"; u "B"; u "C"]
           [Extract.noun; Extract.noun; Extract.noun] []).
  reflexivity.
Defined.

(** ** Cleaned text and the pages of a document *)

(** Two spaces side by side. *)
Fixpoint adjacent_spaces (s : str) : bool :=
  match s with
  | a :: r =>
    match r with
    | b :: _ => (a =? 32)%N && (b =? 32)%N
    | [] => false
    end || adjacent_spaces r
  | [] => false
  end.

Section Pages.

Context (U : UnicodeDB).

Lemma split_on_length sep s : len (split_on sep s) = 1 + count_char s sep.
Proof.
  unfold len, count_char. induction s as [|c s IH]; [reflexivity|].
  simpl. rewrite (N.eqb_sym sep c). destruct (c =? sep)%N; simpl.
  - lia.
  - destruct (split_on sep s); simpl in *; lia.
Qed.

Lemma sub_runs_chars p b s :
  Forall (fun c => c = 32%N \/ (In c s /\ p c = false)) (sub_runs p b s).
Proof.
  revert b. induction s as [|c s IH]; intros b; simpl; [constructor|].
  assert (Hw : forall b', Forall (fun x => x = 32%N \/ (c = x \/ In x s) /\ p x = false)
                            (sub_runs p b' s)).
  { intros b'. eapply List.Forall_impl; [|apply (IH b')].
    simpl. intros x [Hx|[Hx Hp]]; auto. }
  destruct (p c) eqn:Ep.
  - destruct b; [apply Hw|]. constructor; [auto | apply Hw].
  - constructor; [auto | apply Hw].
Qed.

Lemma sub_runs_spaces p s :
  p 32%N = true ->
  forall b,
    adjacent_spaces (sub_runs p b s) = false
    /\ (b = true -> hd 0%N (sub_runs p b s) <> 32%N).
Proof.
  intros H32. induction s as [|c s IH]; intros b.
  - simpl. split; [reflexivity | intros _; discriminate].
  - simpl. destruct (p c) eqn:Ep.
    + destruct b.
      * apply IH.
      * destruct (IH true) as [Ha Hh]. split; [|discriminate].
        simpl. rewrite Ha, orb_false_r.
        destruct (sub_runs p true s) as [|x r] eqn:E; [reflexivity|].
        simpl in Hh. apply N.eqb_neq. apply Hh. reflexivity.
    + assert (Hc : c <> 32%N) by congruence.
      destruct (IH false) as [Ha _]. split; [|intros _; exact Hc].
      simpl. rewrite Ha, orb_false_r.
      destruct (sub_runs p false s); [reflexivity|].
      apply andb_false_iff. left. apply N.eqb_neq, Hc.
Qed.

Lemma sub_newlines_chars s :
  Forall (fun c => c <> 13%N /\ (c = 10%N \/ In c s)) (sub_newlines s).
Proof.
  assert (H : forall n s, (length s <= n)%nat ->
            Forall (fun c => c <> 13%N /\ (c = 10%N \/ In c s)) (sub_newlines s)).
  { induction n as [|n IH]; intros [|c r] Hlen; try (simpl; constructor);
      simpl in Hlen; try lia.
    change (sub_newlines (c :: r))
      with (if (c =? 13)%N
            then 10%N :: match r with
                         | 10%N :: r' => sub_newlines r'
                         | _ => sub_newlines r
                         end
            else c :: sub_newlines r).
    destruct (c =? 13)%N eqn:Ec.
    - constructor; [split; [discriminate | auto]|].
      destruct r as [|d r'].
      + simpl. constructor.
      + assert (Hr : Forall (fun x => x <> 13%N /\ (x = 10%N \/ In x (c :: d :: r')))
                       (sub_newlines (d :: r'))).
        { eapply List.Forall_impl; [|apply IH; lia].
          simpl. intros x [Hx [Hx'|Hx']]; auto. }
        assert (Hr' : Forall (fun x => x <> 13%N /\ (x = 10%N \/ In x (c :: d :: r')))
                        (sub_newlines r')).
        { eapply List.Forall_impl; [|apply IH; simpl in Hlen; lia].
          simpl. intros x [Hx [Hx'|Hx']]; auto. }
        destruct d as [|d]; [exact Hr|].
        repeat (destruct d as [d|d|]; try exact Hr). exact Hr'.
    - constructor; [split; [apply N.eqb_neq, Ec | simpl; auto]|].
      eapply List.Forall_impl; [|apply IH; lia].
      simpl. intros x [Hx [Hx'|Hx']]; auto. }
  apply (H (length s)). lia.
Qed.

Lemma adjacent_spaces_tail c s :
  adjacent_spaces (c :: s) = false -> adjacent_spaces s = false.
Proof. simpl. intros H. apply orb_false_iff in H. apply H. Qed.

Lemma sub_newlines_spaces s :
  adjacent_spaces s = false ->
  adjacent_spaces (sub_newlines s) = false
  /\ (hd 0%N (sub_newlines s) = 32%N -> hd 0%N s = 32%N).
Proof.
  assert (H : forall n s, (length s <= n)%nat -> adjacent_spaces s = false ->
            adjacent_spaces (sub_newlines s) = false
            /\ (hd 0%N (sub_newlines s) = 32%N -> hd 0%N s = 32%N)).
  { clear s. induction n as [|n IH]; intros [|c r] Hlen Hadj;
      try (simpl; split; [reflexivity | auto]); simpl in Hlen; try lia.
    pose proof (adjacent_spaces_tail _ _ Hadj) as Hr.
    change (sub_newlines (c :: r))
      with (if (c =? 13)%N
            then 10%N :: match r with
                         | 10%N :: r' => sub_newlines r'
                         | _ => sub_newlines r
                         end
            else c :: sub_newlines r).
    destruct (c =? 13)%N eqn:Ec.
    - split; [|simpl; discriminate].
      assert (Hrest : forall t, (length t <= n)%nat -> adjacent_spaces t = false ->
                adjacent_spaces (10%N :: sub_newlines t) = false).
      { intros t Ht Hta. destruct (IH t Ht Hta) as [Ha _].
        simpl. rewrite Ha. destruct (sub_newlines t); reflexivity. }
      destruct r as [|d r']; [reflexivity|].
      assert (H1 := Hrest (d :: r') ltac:(simpl; simpl in Hlen; lia) Hr).
      destruct d as [|d]; [exact H1|].
      repeat (destruct d as [d|d|]; try exact H1).
    - destruct (IH r ltac:(lia) Hr) as [Ha Hh]. split; [|auto].
      simpl. rewrite Ha, orb_false_r.
      destruct (sub_newlines r) as [|x t] eqn:E; [reflexivity|].
      destruct (c =? 32)%N eqn:E32; [|reflexivity]. simpl.
      apply N.eqb_neq. intros ->.
      specialize (Hh eq_refl). destruct r as [|d r']; [discriminate|].
      simpl in Hh. subst d. simpl in Hadj. rewrite E32 in Hadj. discriminate. }
  apply (H (length s)). lia.
Qed.

(** X9: Whatever the normal form of the text is, the cleaned text has no
    tab, no carriage return, no no-break space and no ideographic space,
    and never two spaces side by side. *)
Theorem clean_text_shape text :
  Forall (fun c => c <> 9%N /\ c <> 13%N /\ c <> 160%N /\ c <> 12288%N)
    (Extract._clean_text U text)
  /\ adjacent_spaces (Extract._clean_text U text) = false.
Proof.
  unfold Extract._clean_text. cbv zeta.
  set (blank := fun c : N => (c =? 32)%N || (c =? 9)%N).
  set (spaced := map (fun c : N => if (c =? 160)%N || (c =? 12288)%N
                                   then 32%N else c) (Extract._nfkc U text)).
  split.
  - pose proof (sub_newlines_chars (sub_runs blank false spaced)) as H1.
    pose proof (sub_runs_chars blank false spaced) as H2.
    rewrite List.Forall_forall in H1, H2. apply List.Forall_forall.
    intros c Hc. destruct (H1 c Hc) as [H13 [->|Hin]]; [repeat split; lia|].
    destruct (H2 c Hin) as [->|[Hin' Hb]]; [repeat split; lia|].
    unfold blank in Hb. apply orb_false_iff in Hb. destruct Hb as [_ H9].
    apply N.eqb_neq in H9. unfold spaced in Hin'.
    apply in_map_iff in Hin'. destruct Hin' as (x & Hx & _).
    repeat split; auto; intros ->;
      destruct ((x =? 160)%N || (x =? 12288)%N) eqn:E;
      try discriminate; subst x; discriminate.
  - apply sub_newlines_spaces. apply (sub_runs_spaces blank spaced eq_refl false).
Qed.

(** X10: The pages of a document are the pieces of its text between form
    feeds, cleaned and trimmed: one more than there are form feeds, so at
    least one; the pages with text are among them, and none has text
    exactly when every page is empty (a document without any text is one
    empty page). *)
Theorem pdf_pages_counts pdf :
  let pages := fst (Extract.extract_pdf_pages_text U pdf) in
  let info := snd (Extract.extract_pdf_pages_text U pdf) in
  Extract.pages_total info = len pages
  /\ Extract.pages_total info = 1 + count_char (default [] (Extract.pdf_raw pdf)) 12
  /\ 0 <= Extract.pages_with_text info <= Extract.pages_total info
  /\ (Extract.pages_with_text info = 0 <-> Forall (fun p => p = []) pages)
  /\ Forall (stripped isspace) pages
  /\ Extract.path info = Extract.pdf_name pdf.
Proof.
  unfold Extract.extract_pdf_pages_text. cbv zeta. simpl fst. simpl snd.
  simpl Extract.pages_total. simpl Extract.pages_with_text. simpl Extract.path.
  set (pages := map _ (split_on 12 _)).
  split; [reflexivity|]. split.
  { unfold pages, len. rewrite length_map. apply split_on_length. }
  assert (Hf : forall l : list str,
            0 <= len (List.filter (fun p => negb (bool_decide (p = []))) l) <= len l
            /\ (len (List.filter (fun p => negb (bool_decide (p = []))) l) = 0
                <-> Forall (fun p => p = []) l)).
  { unfold len. induction l as [|p l [IH1 IH2]]; simpl.
    - split; [lia|]. split; [constructor | reflexivity].
    - destruct (decide (p = [])) as [->|Hp].
      + simpl. split; [lia|]. rewrite IH2. split.
        * intros H. constructor; [reflexivity | exact H].
        * intros H. inversion H. assumption.
      + rewrite (bool_decide_eq_false_2 _ Hp). simpl. split; [lia|]. split.
        * lia.
        * intros H. inversion H. contradiction. }
  split; [apply Hf|]. split; [apply Hf|]. split; [|reflexivity].
  unfold pages. apply List.Forall_forall. intros p Hp.
  apply in_map_iff in Hp. destruct Hp as (x & <- & _). apply strip_by_stripped.
Qed.

End Pages.

(** ** The context snippet *)

Section Snippet.

Lemma startswith_length s sub :
  startswith s sub = true -> (length sub <= length s)%nat.
Proof.
  revert s. induction sub as [|p sub IH]; intros [|c s] H; simpl in *;
    try lia; try discriminate.
  apply andb_true_iff in H. destruct H as [_ H]. apply IH in H. lia.
Qed.

Lemma contains_nil sub : contains [] sub = startswith [] sub.
Proof. unfold contains. apply orb_false_r. Qed.

Lemma contains_cons c s sub :
  contains (c :: s) sub = startswith (c :: s) sub || contains s sub.
Proof. reflexivity. Qed.

Lemma startswith_skipn_contains s sub i :
  startswith (skipn i s) sub = true -> contains s sub = true.
Proof.
  revert s. induction i as [|i IH]; intros s H.
  - rewrite drop_0 in H. destruct s.
    + rewrite contains_nil. exact H.
    + rewrite contains_cons, H. reflexivity.
  - destruct s as [|c s].
    + rewrite contains_nil. exact H.
    + rewrite contains_cons, (IH s H). apply orb_true_r.
Qed.

Lemma contains_skipn s sub :
  contains s sub = true ->
  exists i, (i + length sub <= length s)%nat
            /\ startswith (skipn i s) sub = true.
Proof.
  induction s as [|c s IH]; intros H.
  - rewrite contains_nil in H. exists 0%nat.
    split; [apply startswith_length in H; simpl in *; lia | exact H].
  - rewrite contains_cons in H. apply orb_true_iff in H. destruct H as [H|H].
    + exists 0%nat.
      split; [apply startswith_length in H; simpl in *; lia | exact H].
    + destruct (IH H) as (i & Hi & Hs). exists (S i).
      split; [simpl; lia | exact Hs].
Qed.

Lemma adjust_len n : 0 <= n -> adjust n n = n.
Proof.
  intros H. unfold adjust.
  destruct (n <? 0) eqn:E; [apply Z.ltb_lt in E; lia | lia].
Qed.

(** [s.find(sub)] is [-1] exactly when [sub] is not in [s]. *)
Lemma find_contains s sub :
  (contains s sub = false -> find s sub = -1)
  /\ (contains s sub = true -> 0 <= find s sub).
Proof.
  unfold find, find_in, occurrences. cbv zeta.
  rewrite adjust_len by (unfold len; lia).
  change (Z.max 0 (if 0 <? 0 then 0 + len s else 0)) with 0.
  set (f := fun i : Z => startswith (skipn (Z.to_nat i) s) sub).
  set (cands := map (fun k : nat => 0 + Z.of_nat k) (seq 0 _)).
  split.
  - intros Hc. replace (List.filter f cands) with (@nil Z); [reflexivity|].
    symmetry. generalize cands. intros l.
    induction l as [|x l IH]; [reflexivity|]. simpl.
    destruct (f x) eqn:E; [|exact IH].
    unfold f in E. apply startswith_skipn_contains in E. congruence.
  - intros Hc. destruct (contains_skipn _ _ Hc) as (i & Hi & Hs).
    assert (Hin : In (Z.of_nat i) (List.filter f cands)).
    { apply filter_In. split.
      - unfold cands. apply in_map_iff. exists i. split; [lia|].
        apply in_seq. unfold len. lia.
      - unfold f. rewrite Nat2Z.id. exact Hs. }
    assert (Hall : forall x, In x (List.filter f cands) -> 0 <= x).
    { intros x Hx. apply filter_In in Hx. destruct Hx as [Hx _].
      unfold cands in Hx. apply in_map_iff in Hx.
      destruct Hx as (k & <- & _). lia. }
    destruct (List.filter f cands) as [|x l]; [destruct Hin|].
    simpl. apply Hall. left. reflexivity.
Qed.

Lemma slice_to_length s hi : 0 <= hi -> len (slice_to s hi) <= hi.
Proof.
  intros H. unfold slice_to, slice, adjust, len. cbv zeta.
  rewrite length_firstn.
  destruct (0 <? 0) eqn:E0; [discriminate|].
  destruct (hi <? 0) eqn:E; [apply Z.ltb_lt in E; lia|]. lia.
Qed.

Lemma rstrip_by_length p s : (length (rstrip_by p s) <= length s)%nat.
Proof.
  unfold rstrip_by. rewrite length_rev.
  destruct (lstrip_by_suffix p (rev s)) as [pre Hpre].
  pose proof (f_equal (@length N) Hpre) as Hl.
  rewrite length_rev, length_app in Hl. lia.
Qed.

Lemma rstrip_by_last p s : head_ok p (rev (rstrip_by p s)).
Proof. unfold rstrip_by. rewrite rev_involutive. apply lstrip_by_head_ok. Qed.

(** X11: [_extract_context] gives nothing for a term that is not in the text.
    A snippet it gives is never empty and has at most 161 characters: it
    is either trimmed and of 6 to 160 characters, or what is left of the
    first 160 characters after trailing white space is removed, followed
    by an ellipsis. *)
Theorem extract_context_bounds text term :
  (contains text term = false -> Extract._extract_context text term = None)
  /\ forall ctx, Extract._extract_context text term = Some ctx ->
       contains text term = true
       /\ ctx <> []
       /\ len ctx <= 161
       /\ ((6 <= len ctx <= 160 /\ stripped isspace ctx)
           \/ exists w, ctx = w ++ u "…" /\ len w <= 160
                        /\ head_ok isspace (rev w)).
Proof.
  destruct (find_contains text term) as [Habs Hpres]. split.
  - intros Hc. unfold Extract._extract_context. cbv zeta.
    rewrite (Habs Hc). reflexivity.
  - intros ctx. unfold Extract._extract_context. cbv zeta.
    destruct (find text term <? 0) eqn:Ef; [discriminate|].
    apply Z.ltb_ge in Ef.
    assert (Hc : contains text term = true).
    { destruct (contains text term) eqn:E; [reflexivity|].
      rewrite (Habs eq_refl) in Ef. lia. }
    destruct (bool_decide (_ = [])); [discriminate|].
    match goal with
    | |- context [len (strip ?w) <? 6] =>
      assert (Hst : stripped isspace (strip w)) by apply strip_by_stripped;
      revert Hst; generalize (strip w)
    end.
    intros window Hst.
    destruct (len window <? 6) eqn:E6; [discriminate|].
    apply Z.ltb_ge in E6.
    destruct (160 <? len window) eqn:E160; intros [= <-].
    + pose proof (slice_to_length window 160 ltac:(lia)) as Hs.
      pose proof (rstrip_by_length isspace (slice_to window 160)) as Hr.
      fold (rstrip (slice_to window 160)) in Hr.
      change (u "…") with [8230%N].
      split; [exact Hc|]. split; [destruct (rstrip _); discriminate|].
      split; [unfold len in *; rewrite length_app; simpl length; lia|].
      right. exists (rstrip (slice_to window 160)).
      split; [reflexivity|]. split; [unfold len in *; lia|].
      apply rstrip_by_last.
    + apply Z.ltb_ge in E160.
      split; [exact Hc|]. split; [intros E; rewrite E in E6; unfold len in E6; simpl in E6; lia|].
      split; [lia|]. left. split; [lia | exact Hst].
Qed.

End Snippet.

Lemma extract_context_bounds_witness :
  Extract._extract_context (u "当期の売上高は増加した。") (u "営業利益") = None
  /\ (contains (u "前期比で増加。当期の売上高は増加した。次期は未定。") (u "売上高") = true
      /\ u "当期の売上高は増加した。次期は未定。" <> []).
Proof.
  split.
  - apply (proj1 (extract_context_bounds (u "当期の売上高は増加した。")
                    (u "営業利益"))).
    vm_compute. reflexivity.
  - destruct (proj2 (extract_context_bounds
                       (u "前期比で増加。当期の売上高は増加した。次期は未定。")
                       (u "売上高"))
                (u "当期の売上高は増加した。次期は未定。")) as (H1 & H2 & _).
    + vm_compute. reflexivity.
    + split; assumption.
Defined.

(** ** When pass 2 returns, and its statistics *)

Section MicrofixOutcome.

Context (U : UnicodeDB).

(** A record line 225 accepts: an object whose [word] is absent, falsy or
    a string. *)
Definition well_formed (item : json) : bool :=
  match item with
  | JObj fields =>
    match dict_get (u "word") fields with
    | None => true
    | Some (JStr _) => true
    | Some v => negb (truthy v)
    end
  | _ => false
  end.

(** The test of line 229. *)
Definition drops_description (item : json) : bool :=
  match item with
  | JObj fields =>
    match dict_get (u "description") fields with
    | Some (JStr desc) => Microfix._is_noisy_description U desc
    | _ => false
    end
  | _ => false
  end.

Lemma item_step_closed keep_set item out n :
  Microfix.item_step U keep_set item (out, n)
  = if well_formed item then
      inr (out ++ (if survives keep_set item then [refine_item U item] else []),
           n + (if survives keep_set item && drops_description item
                then 1 else 0))
    else inl AttributeError.
Proof.
  unfold Microfix.item_step, well_formed, survives, word_of, refine_item,
    drops_description.
  destruct item as [| | | | |l|fields]; try reflexivity.
  assert (Hskip : @inr exn _ (out, n) = inr (out ++ [], n + 0))
    by (rewrite app_nil_r, Z.add_0_r; reflexivity).
  destruct (dict_get (u "word") fields) as [v|] eqn:Ew; simpl;
    [|exact Hskip].
  destruct v as [|b|z|f|s|l|o]; simpl.
  - exact Hskip.
  - destruct b; simpl; [reflexivity | exact Hskip].
  - destruct (z =? 0); simpl; [exact Hskip | reflexivity].
  - destruct (PrimFloat.eqb f PrimFloat.zero); simpl;
      [exact Hskip | reflexivity].
  - destruct (decide (s = [])) as [->|Hs]; [exact Hskip|].
    rewrite (bool_decide_eq_false_2 _ Hs). simpl.
    destruct (bool_decide (strip s = [])); simpl; [exact Hskip|].
    destruct (bool_decide (strip s ∈ keep_set)); simpl; [|exact Hskip].
    destruct (dict_get (u "description") fields) as [[| | | |desc| |]|];
      try (rewrite Z.add_0_r; reflexivity).
    destruct (Microfix._is_noisy_description U desc);
      [reflexivity | rewrite Z.add_0_r; reflexivity].
  - destruct (bool_decide (length l = 0%nat)); simpl;
      [exact Hskip | reflexivity].
  - destruct (bool_decide (length o = 0%nat)); simpl;
      [exact Hskip | reflexivity].
Qed.

Lemma items_loop_closed keep_set items :
  forall out n,
    for_each items (Microfix.item_step U keep_set) (out, n)
    = if forallb well_formed items then
        inr (out ++ map (refine_item U) (List.filter (survives keep_set) items),
             n + len (List.filter
                        (fun i => survives keep_set i && drops_description i)
                        items))
      else inl AttributeError.
Proof.
  induction items as [|item items IH]; intros out n.
  - rewrite for_each_nil. simpl. rewrite app_nil_r, Z.add_0_r. reflexivity.
  - rewrite for_each_cons, item_step_closed. simpl forallb.
    destruct (well_formed item); [|reflexivity].
    rewrite bind_inr, IH. simpl andb.
    destruct (forallb well_formed items); [|reflexivity].
    simpl List.filter.
    destruct (survives keep_set item); simpl andb.
    + destruct (drops_description item); simpl map;
        rewrite <- app_assoc; simpl app; f_equal; f_equal;
        unfold len; simpl length; lia.
    + rewrite app_nil_r, Z.add_0_r. reflexivity.
Qed.

(** The statistics [microfix_company] returns. *)
Definition fix_stats (dirname text : str) (items_in : list json)
  : Microfix.FixStats :=
  let company := Microfix._company_name_from_dirname U dirname in
  let words := Microfix._load_words text in
  let keep := keep_words_of U company words in
  {| Microfix.words_in := len words;
     Microfix.words_out := len keep;
     Microfix.jsonl_in := len items_in;
     Microfix.jsonl_out := len (ordered_items keep (kept_items U keep items_in));
     Microfix.desc_dropped :=
       len (List.filter
              (fun i => survives (list_to_set keep) i && drops_description i)
              items_in);
     Microfix.words_dropped := len words - len keep |}.

Lemma microfix_company_closed OUTPUT_DIR dirname text items_in :
  Microfix.microfix_company U OUTPUT_DIR dirname
    {| wordList_txt := Some text; wordList_jsonl := Some items_in |}
  = if forallb well_formed items_in then
      inr (refined U dirname text items_in, fix_stats dirname text items_in)
    else inl AttributeError.
Proof.
  unfold Microfix.microfix_company, refined, fix_stats. simpl.
  unfold keep_words_of.
  destruct (fold_left _ (Microfix._load_words text) ([], ∅)) as [kw seen].
  simpl fst. rewrite items_loop_closed.
  destruct (forallb well_formed items_in); [|reflexivity].
  rewrite bind_inr. simpl app.
  fold (kept_items U kw items_in).
  destruct (index_loop _ (kept_items_word U kw items_in) ∅) as (m' & E & Hm').
  rewrite E, bind_inr.
  assert (Ho : omap (fun w => m' !! w) kw
               = ordered_items kw (kept_items U kw items_in)).
  { unfold ordered_items. apply list_omap_ext.
    apply Forall2_same_length_lookup_2; [reflexivity|].
    intros i x y Hx Hy. assert (x = y) by congruence. subst y.
    rewrite Hm', lookup_empty. reflexivity. }
  rewrite Ho. reflexivity.
Qed.


Lemma omap_length_le {A B} (f : A -> option B) (l : list A) :
  (length (omap f l) <= length l)%nat.
Proof.
  induction l as [|x l IH]; simpl; [lia|].
  unfold omap in IH. destruct (f x); simpl; lia.
Qed.

Lemma list_filter_length_le {A} (f : A -> bool) (l : list A) :
  (length (List.filter f l) <= length l)%nat.
Proof.
  induction l as [|x l IH]; simpl; [lia|]. destruct (f x); simpl; lia.
Qed.

Lemma ordered_items_length keep items :
  NoDup keep ->
  (length (ordered_items keep items) <= length keep)%nat
  /\ (length (ordered_items keep items) <= length items)%nat.
Proof.
  intros Hnd. split.
  - unfold ordered_items. apply omap_length_le.
  - destruct (ordered_items_words keep items) as (ws & Hmap & Hsub & _).
    assert (Hlen : length (ordered_items keep items) = length ws).
    { rewrite <- (length_map word_of), Hmap, length_map. reflexivity. }
    rewrite Hlen.
    assert (Hin : forall w, w ∈ ws -> w ∈ omap word_of items).
    { intros w Hw. apply list_elem_of_omap.
      assert (Hs : Some w ∈ map Some ws) by (apply list_elem_of_fmap; eauto).
      rewrite <- Hmap in Hs. apply list_elem_of_fmap in Hs.
      destruct Hs as (r & Hr & Hin). unfold ordered_items in Hin.
      apply list_elem_of_omap in Hin. destruct Hin as (k & _ & Hfind).
      apply find_word_is in Hfind. destruct Hfind as [Hitem _].
      exists r. split; [apply list_elem_of_In, Hitem | congruence]. }
    transitivity (length (omap word_of items)); [|apply omap_length_le].
    apply submseteq_length, NoDup_submseteq; [|exact Hin].
    eapply sublist_NoDup; eassumption.
Qed.

(** X13: The statistics of a run that returns: the words read and written, the
    difference as the words dropped, the records read and written, and
    the descriptions dropped; no more records are written than words, nor
    than records were read. *)
Theorem microfix_stats OUTPUT_DIR dirname files files' stats :
  Microfix.microfix_company U OUTPUT_DIR dirname files = inr (files', stats) ->
  exists text items_in text' items_out,
    wordList_txt files = Some text /\ wordList_jsonl files = Some items_in
    /\ wordList_txt files' = Some text'
    /\ wordList_jsonl files' = Some items_out
    /\ Microfix.words_in stats = len (Microfix._load_words text)
    /\ Microfix.words_out stats = len (Microfix._load_words text')
    /\ Microfix.words_dropped stats
       = Microfix.words_in stats - Microfix.words_out stats
    /\ 0 <= Microfix.words_dropped stats
    /\ Microfix.jsonl_in stats = len items_in
    /\ Microfix.jsonl_out stats = len items_out
    /\ Microfix.jsonl_out stats <= Microfix.words_out stats
    /\ Microfix.jsonl_out stats <= Microfix.jsonl_in stats
    /\ 0 <= Microfix.desc_dropped stats <= Microfix.jsonl_in stats.
Proof.
  intros H. destruct files as [[text|] [items_in|]];
    try (unfold Microfix.microfix_company in H; simpl in H; discriminate).
  rewrite microfix_company_closed in H.
  destruct (forallb well_formed items_in); [|discriminate].
  injection H as <- <-.
  set (company := Microfix._company_name_from_dirname U dirname).
  set (keep := keep_words_of U company (Microfix._load_words text)).
  destruct (keep_words_of_spec U company (Microfix._load_words text))
    as (Hnd & Hsub & _).
  fold keep in Hnd, Hsub.
  assert (Hclean : Forall clean keep).
  { eapply Forall_sublist; [exact Hsub | apply load_words_clean]. }
  destruct (ordered_items_length keep (kept_items U keep items_in) Hnd)
    as [Hl1 Hl2].
  assert (Hk : (length (kept_items U keep items_in) <= length items_in)%nat).
  { unfold kept_items. rewrite length_map. apply list_filter_length_le. }
  pose proof (sublist_length _ _ Hsub) as Hl3.
  exists text, items_in, (Microfix._write_words keep),
    (ordered_items keep (kept_items U keep items_in)).
  rewrite (load_write_words keep Hclean).
  unfold fix_stats, refined. simpl. fold company. fold keep. unfold len.
  repeat split; try reflexivity; try lia.
  pose proof (list_filter_length_le
                (fun i => survives (list_to_set keep) i && drops_description i)
                items_in).
  lia.
Qed.

End MicrofixOutcome.

Lemma microfix_stats_witness :
  Microfix.words_in sample_stats = 5 /\ Microfix.words_out sample_stats = 2.
Proof.
  destruct (microfix_stats sample_db (u "/r/output") (u "1_ExampleCo")
              sample_files sample_fixed sample_stats)
    as (text & items_in & text' & items_out & _).
  - vm_compute. reflexivity.
  - vm_compute. split; reflexivity.
Defined.

(** ** What pass 2 leaves in the two files *)

Section MicrofixKept.

Context (U : UnicodeDB).

Lemma search_cls p s : search (Cls p) s = existsb p s.
Proof.
  unfold search. generalize (@None N).
  induction s as [|c s IH]; intros prev; [reflexivity|].
  simpl. destruct (p c); [reflexivity|]. apply IH.
Qed.

Lemma contains_char s c : contains s [c] = existsb (N.eqb c) s.
Proof.
  induction s as [|x s IH]; [reflexivity|].
  rewrite contains_cons, IH.
  assert (Hs : startswith (x :: s) [c] = (c =? x)%N)
    by (simpl; destruct s; apply andb_true_r).
  rewrite Hs. reflexivity.
Qed.

Lemma count_char_absent s c :
  existsb (N.eqb c) s = false -> count_char s c = 0.
Proof.
  unfold count_char. induction s as [|x s IH]; simpl; intros H; [reflexivity|].
  apply orb_false_iff in H. destruct H as [H1 H2]. rewrite H1. apply IH, H2.
Qed.

(** A word of the refined list. *)
Definition kept_word_ok (company w : str) : Prop :=
  w <> [] /\ strip w = w /\ no_linebreak w
  /\ mem w Microfix.FORM_TERMS = false
  /\ mem w Microfix.GENERIC_STOPWORDS = false
  /\ w <> company
  /\ Forall (fun c => c <> 12304%N /\ c <> 12305%N) w
  /\ count_char w 40 = count_char w 41
  /\ count_char w 65288 = count_char w 65289.

Lemma not_noisy_ok company w :
  clean w -> Microfix._is_noisy_word U w company = false ->
  kept_word_ok company w.
Proof.
  intros (Hne & Hs & Hlb) Hn.
  unfold Microfix._is_noisy_word in Hn. cbv zeta in Hn. rewrite Hs in Hn.
  repeat match type of Hn with
         | (if ?c then true else _) = false =>
           let E := fresh "E" in destruct c eqn:E; [discriminate Hn|]
         end.
  clear Hn.
  repeat match goal with
         | H : Re.search _ _ && _ = false |- _ => clear H
         | H : (endswith _ _ || _) && _ = false |- _ => clear H
         | H : endswith _ _ && _ = false |- _ => clear H
         | H : Re.fullmatch _ _ = false |- _ => clear H
         | H : Re.fullmatch _ _ || _ = false |- _ => clear H
         end.
  repeat split; auto.
  - match goal with
    | H : str_eqb w company = false |- _ =>
      apply bool_decide_eq_false in H; exact H
    end.
  - match goal with
    | H : Re.search Microfix.RE_HAS_BRACKETS w = false |- _ =>
      unfold Microfix.RE_HAS_BRACKETS, OneOf in H; rewrite search_cls in H;
      rename H into Hb
    end.
    apply List.Forall_forall. intros c Hc.
    assert (Hf : bool_decide (c ∈ u "【】") = false).
    { destruct (bool_decide (c ∈ u "【】")) eqn:E'; [|reflexivity].
      rewrite <- Hb. symmetry. apply existsb_exists. eauto. }
    apply bool_decide_eq_false in Hf.
    split; intros ->; apply Hf; vm_compute;
      [left | right; left].
  - match goal with
    | H : (_ || _ || _ || _) && _ = false |- _ => rename H into Hp
    end.
    change (u "(") with [40%N] in Hp. change (u ")") with [41%N] in Hp.
    change (u "（") with [65288%N] in Hp. change (u "）") with [65289%N] in Hp.
    rewrite !contains_char in Hp.
    apply andb_false_iff in Hp. destruct Hp as [Hp|Hp].
    + rewrite !orb_false_iff in Hp. destruct Hp as [[[H1 H2] _] _].
      rewrite (count_char_absent _ _ H1), (count_char_absent _ _ H2).
      reflexivity.
    + apply orb_false_iff in Hp. destruct Hp as [Hp _].
      apply negb_false_iff, Z.eqb_eq in Hp. exact Hp.
  - match goal with
    | H : (_ || _ || _ || _) && _ = false |- _ => rename H into Hp
    end.
    change (u "(") with [40%N] in Hp. change (u ")") with [41%N] in Hp.
    change (u "（") with [65288%N] in Hp. change (u "）") with [65289%N] in Hp.
    rewrite !contains_char in Hp.
    apply andb_false_iff in Hp. destruct Hp as [Hp|Hp].
    + rewrite !orb_false_iff in Hp. destruct Hp as [[_ H3] H4].
      rewrite (count_char_absent _ _ H3), (count_char_absent _ _ H4).
      reflexivity.
    + apply orb_false_iff in Hp. destruct Hp as [_ Hp].
      apply negb_false_iff, Z.eqb_eq in Hp. exact Hp.
Qed.

(** X14: Every word of the list pass 2 writes is trimmed and not empty, is
    neither a form term nor a generic stopword nor the entity's name, has
    no lenticular bracket, and has as many opening as closing
    parentheses, of either width. *)
Theorem microfix_written_words OUTPUT_DIR dirname files files' stats :
  Microfix.microfix_company U OUTPUT_DIR dirname files = inr (files', stats) ->
  exists text',
    wordList_txt files' = Some text'
    /\ Forall (kept_word_ok (Microfix._company_name_from_dirname U dirname))
         (Microfix._load_words text').
Proof.
  intros H. apply microfix_company_inr in H.
  destruct H as (text & items_in & -> & ->).
  destruct (refined_words U dirname text items_in)
    as (keep & Htxt & Hload & _ & _ & Hclean & Hnn & _).
  exists (Microfix._write_words keep). split; [exact Htxt|].
  rewrite Hload. apply List.Forall_forall. intros w Hw.
  rewrite List.Forall_forall in Hclean, Hnn.
  apply not_noisy_ok; [apply Hclean, Hw | apply Hnn, Hw].
Qed.

Lemma not_noisy_description_long desc :
  Microfix._is_noisy_description U desc = false -> 10 <= len (strip desc).
Proof.
  intros Hn. unfold Microfix._is_noisy_description in Hn. cbv zeta in Hn.
  repeat match type of Hn with
         | (if ?c then true else _) = false =>
           let E := fresh "E" in destruct c eqn:E; [discriminate Hn|]
         end.
  match goal with
  | H : (len (strip desc) <? 10) = false |- _ => apply Z.ltb_ge in H; exact H
  end.
Qed.

(** X15: Every record pass 2 writes is an object whose [word] is a word of the
    list it writes, and a [description] string that stays is not noisy: in
    particular it has at least 10 characters once trimmed. *)
Theorem microfix_written_records OUTPUT_DIR dirname files files' stats :
  Microfix.microfix_company U OUTPUT_DIR dirname files = inr (files', stats) ->
  exists text' items_out,
    wordList_txt files' = Some text'
    /\ wordList_jsonl files' = Some items_out
    /\ forall r', r' ∈ items_out ->
         exists fields w,
           r' = JObj fields
           /\ dict_get (u "word") fields = Some (JStr w)
           /\ w ∈ Microfix._load_words text'
           /\ forall desc,
                dict_get (u "description") fields = Some (JStr desc) ->
                Microfix._is_noisy_description U desc = false
                /\ 10 <= len (strip desc).
Proof.
  intros H. apply microfix_company_inr in H.
  destruct H as (text & items_in & -> & ->).
  destruct (refined_words U dirname text items_in)
    as (keep & Htxt & Hload & _ & _ & _ & _ & Hjsonl).
  exists (Microfix._write_words keep),
    (ordered_items keep (kept_items U keep items_in)).
  split; [exact Htxt|]. split; [exact Hjsonl|]. rewrite Hload.
  intros r' Hr'. apply ordered_items_spec in Hr'.
  destruct Hr' as (w & r & Hw & Hword & _ & _ & ->).
  destruct (refine_item U r) as [| | | | |l|fields] eqn:Er;
    try discriminate Hword.
  exists fields, w. split; [reflexivity|]. split.
  { unfold word_of in Hword.
    destruct (dict_get (u "word") fields) as [[| | | |s| |]|];
      try discriminate Hword. congruence. }
  split; [exact Hw|]. intros desc Hd.
  assert (Hn : Microfix._is_noisy_description U desc = false).
  { unfold refine_item in Er. destruct r as [| | | | |l0|fields0];
      try discriminate Er.
    destruct (dict_get (u "description") fields0)
      as [[| | | |d| |]|] eqn:Ed;
      try (injection Er as <-; congruence).
    destruct (Microfix._is_noisy_description U d) eqn:En;
      injection Er as <-.
    - rewrite dict_get_pop_eq in Hd. discriminate Hd.
    - congruence. }
  split; [exact Hn | apply not_noisy_description_long, Hn].
Qed.

End MicrofixKept.

Lemma microfix_written_words_witness :
  exists text',
    wordList_txt sample_fixed = Some text'
    /\ Forall (kept_word_ok
                 (Microfix._company_name_from_dirname sample_db
                    (u "1_ExampleCo")))
         (Microfix._load_words text').
Proof.
  apply (microfix_written_words sample_db (u "/r/output") (u "1_ExampleCo")
           sample_files sample_fixed sample_stats).
  vm_compute. reflexivity.
Defined.

Lemma microfix_written_records_witness :
  exists text' items_out,
    wordList_txt sample_fixed = Some text'
    /\ wordList_jsonl sample_fixed = Some items_out.
Proof.
  destruct (microfix_written_records sample_db (u "/r/output")
              (u "1_ExampleCo") sample_files sample_fixed sample_stats)
    as (text' & items_out & H1 & H2 & _).
  - vm_compute. reflexivity.
  - exists text', items_out. split; assumption.
Defined.

(** ** The entity's name from its folder *)

Section FolderName.

Context (U : UnicodeDB).

Hypothesis underscore_not_decimal : isdecimal U 95 = false.

Lemma digits_then_underscore name digits :
  forallb (isdecimal U) digits = true ->
  forall prev fuel,
    (length (digits ++ 95%N :: name) <= fuel)%nat ->
    flat_map (run (Chr 95))
      (star_loop (Cls (isdecimal U)) fuel (prev, digits ++ 95%N :: name))
    = [(Some 95%N, name)].
Proof.
  induction digits as [|c ds IH]; intros Hd prev fuel Hlen.
  - assert (E : star_loop (Cls (isdecimal U)) fuel (prev, 95%N :: name)
                = [(prev, 95%N :: name)]).
    { destruct fuel; [reflexivity|].
      change (star_loop (Cls (isdecimal U)) (S fuel) (prev, 95%N :: name))
        with ((prev, 95%N :: name)
              :: flat_map (star_loop (Cls (isdecimal U)) fuel)
                   (List.filter (shorter (prev, 95%N :: name))
                      (run (Cls (isdecimal U)) (prev, 95%N :: name)))).
      simpl run. rewrite underscore_not_decimal. reflexivity. }
    simpl app. rewrite E. reflexivity.
  - simpl in Hd. apply andb_true_iff in Hd. destruct Hd as [Hc Hds].
    destruct fuel as [|fuel]; [simpl in Hlen; lia|].
    simpl app.
    change (star_loop (Cls (isdecimal U)) (S fuel)
              (prev, c :: ds ++ 95%N :: name))
      with ((prev, c :: ds ++ 95%N :: name)
            :: flat_map (star_loop (Cls (isdecimal U)) fuel)
                 (List.filter (shorter (prev, c :: ds ++ 95%N :: name))
                    (run (Cls (isdecimal U))
                       (prev, c :: ds ++ 95%N :: name)))).
    simpl run at 2. rewrite Hc.
    assert (Hsh : shorter (prev, c :: ds ++ 95%N :: name)
                    (Some c, ds ++ 95%N :: name) = true).
    { unfold shorter. simpl. apply Nat.ltb_lt. lia. }
    simpl List.filter. rewrite Hsh.
    change (flat_map (star_loop (Cls (isdecimal U)) fuel)
              [(Some c, ds ++ 95%N :: name)])
      with (star_loop (Cls (isdecimal U)) fuel (Some c, ds ++ 95%N :: name)
            ++ []).
    rewrite app_nil_r.
    change (flat_map (run (Chr 95))
              ((prev, c :: ds ++ 95%N :: name)
               :: star_loop (Cls (isdecimal U)) fuel
                    (Some c, ds ++ 95%N :: name)))
      with (run (Chr 95) (prev, c :: ds ++ 95%N :: name)
            ++ flat_map (run (Chr 95))
                 (star_loop (Cls (isdecimal U)) fuel
                    (Some c, ds ++ 95%N :: name))).
    assert (Hne : (95 =? c)%N = false).
    { apply N.eqb_neq. intros <-. congruence. }
    change (run (Chr 95) (prev, c :: ds ++ 95%N :: name))
      with (if (95 =? c)%N then [(Some c, ds ++ 95%N :: name)] else []).
    rewrite Hne. simpl app.
    apply IH; [exact Hds | simpl in Hlen; lia].
Qed.

Lemma numbered_prefix digits name :
  digits <> [] -> forallb (isdecimal U) digits = true ->
  run (Seq [Bol; Plus (Cls (isdecimal U)); Chr 95])
    (None, digits ++ 95%N :: name)
  = [(Some 95%N, name)].
Proof.
  intros Hne Hd. destruct digits as [|c ds]; [congruence|].
  pose proof Hd as Hd'. simpl in Hd'. apply andb_true_iff in Hd'.
  destruct Hd' as [Hc Hds].
  change (run (Seq [Bol; Plus (Cls (isdecimal U)); Chr 95])
            (None, (c :: ds) ++ 95%N :: name))
    with (flat_map (run (Chr 95))
            (flat_map (run (Star (Cls (isdecimal U))))
               (run (Cls (isdecimal U)) (None, c :: ds ++ 95%N :: name)))
          ++ []).
  rewrite app_nil_r. simpl run at 3. rewrite Hc.
  change (flat_map (run (Star (Cls (isdecimal U))))
            [(Some c, ds ++ 95%N :: name)])
    with (run (Star (Cls (isdecimal U))) (Some c, ds ++ 95%N :: name) ++ []).
  rewrite app_nil_r, run_star.
  apply digits_then_underscore; [exact Hds | simpl; lia].
Qed.

Lemma longest_to_end name prev :
  name <> [] -> forallb (fun c => negb (c =? 10)%N) name = true ->
  exists e rest,
    sorted (fun a b : state => (length (snd a) <=? length (snd b))%nat)
      (run (Seq [Plus Dot; Eol]) (prev, name)) = e :: rest
    /\ snd e = [].
Proof.
  intros Hne Hall.
  set (le := fun a b : state => (length (snd a) <=? length (snd b))%nat).
  set (L := run (Seq [Plus Dot; Eol]) (prev, name)).
  assert (Hin : exists st, In st L /\ snd st = []).
  { pose proof (proj2 (plus_class_end Dot _ prev name (class_like_cls _))
                  (conj Hne Hall)) as H.
    apply existsb_exists in H. destruct H as (st & Hst & Hend).
    exists st. unfold at_end in Hend.
    destruct (snd st) eqn:E; [|discriminate]. split; [|reflexivity].
    unfold L. change (Seq [Plus Dot; Eol]) with (Cat (Plus Dot) Eol).
    change (run (Cat (Plus Dot) Eol) (prev, name))
      with (flat_map (run Eol) (run (Plus Dot) (prev, name))).
    apply in_flat_map. exists st. split; [exact Hst|].
    simpl. rewrite E. left. reflexivity. }
  destruct Hin as (st & Hst & Hnil).
  assert (Hin' : In st (sorted le L)).
  { apply list_elem_of_In. rewrite (sorted_perm le L).
    apply list_elem_of_In. exact Hst. }
  assert (Hs : StronglySorted (fun a b => le a b = true) (sorted le L)).
  { apply sorted_strongly.
    - intros a b. unfold le. rewrite !Nat.leb_le. lia.
    - intros a b c. unfold le. rewrite !Nat.leb_le. lia. }
  destruct (sorted le L) as [|e rest]; [destruct Hin'|].
  exists e, rest. split; [reflexivity|].
  destruct Hin' as [->|Hin']; [exact Hnil|].
  apply StronglySorted_inv in Hs. destruct Hs as [_ Hall'].
  rewrite List.Forall_forall in Hall'. specialize (Hall' st Hin').
  unfold le in Hall'. apply Nat.leb_le in Hall'. rewrite Hnil in Hall'.
  simpl in Hall'. destruct (snd e); [reflexivity | simpl in Hall'; lia].
Qed.

(** X16: The entity's name, in both scripts: a folder named by digits, an
    underscore and a name on one line gives the name; a folder that does
    not start with a digit gives its own name. *)
Theorem company_name_of_folder :
  (forall digits name,
     digits <> [] -> forallb (isdecimal U) digits = true ->
     name <> [] -> forallb (fun c => negb (c =? 10)%N) name = true ->
     Extract._company_name_from_dirname U (digits ++ 95%N :: name) = name
     /\ Microfix._company_name_from_dirname U (digits ++ 95%N :: name) = name)
  /\ (forall dirname,
        match dirname with c :: _ => isdecimal U c = false | [] => True end ->
        Extract._company_name_from_dirname U dirname = dirname
        /\ Microfix._company_name_from_dirname U dirname = dirname).
Proof.
  split.
  - intros digits name Hne Hd Hname Hall.
    assert (E : company_name_from_dirname (isdecimal U)
                  (digits ++ 95%N :: name) = name).
    { unfold company_name_from_dirname.
      rewrite (numbered_prefix digits name Hne Hd).
      destruct (longest_to_end name (Some 95%N) Hname Hall)
        as (e & rest & Hsorted & He).
      cbv beta iota.
      match goal with
      | |- context [sorted ?f ?l] =>
        change (sorted f l)
          with (sorted (fun a b : state =>
                          (length (snd a) <=? length (snd b))%nat)
                  (run (Seq [Plus Dot; Eol]) (Some 95%N, name)))
      end.
      rewrite Hsorted. simpl snd. rewrite He. simpl length. rewrite Nat.sub_0_r.
      apply firstn_all. }
    split; exact E.
  - intros dirname Hhead.
    assert (E : company_name_from_dirname (isdecimal U) dirname = dirname).
    { unfold company_name_from_dirname.
      change (run (Seq [Bol; Plus (Cls (isdecimal U)); Chr 95]) (None, dirname))
        with (flat_map (run (Chr 95))
                (flat_map (run (Star (Cls (isdecimal U))))
                   (run (Cls (isdecimal U)) (None, dirname)))
              ++ []).
      destruct dirname as [|c r]; [reflexivity|].
      simpl run at 3. rewrite Hhead. reflexivity. }
    split; exact E.
Qed.

End FolderName.

Lemma company_name_of_folder_witness :
  Extract._company_name_from_dirname sample_db (u "7203_ExampleCo")
  = u "ExampleCo"
  /\ Microfix._company_name_from_dirname sample_db (u "ExampleCo")
     = u "ExampleCo".
Proof.
  split.
  - apply (proj1 (company_name_of_folder sample_db eq_refl)
             (u "7203") (u "ExampleCo")).
    + vm_compute. discriminate.
    + vm_compute. reflexivity.
    + vm_compute. discriminate.
    + vm_compute. reflexivity.
  - apply (proj2 (company_name_of_folder sample_db eq_refl) (u "ExampleCo")).
    vm_compute. reflexivity.
Defined.

(** ** Frequencies and the terms of an entity *)

Section Frequencies.

Context (U : UnicodeDB) (tokenize : str -> list Extract.Token).














End Frequencies.


(** ** Pass 2 on what pass 1 wrote *)

Section Composition.

Context (U : UnicodeDB) (tokenize : str -> list Extract.Token).



End Composition.


(** ** A whole run of pass 2 *)

Section MicrofixBatch.

Context (U : UnicodeDB).







End MicrofixBatch.


(** * globis_glossary_by_category.py *)

Module Globis.

(** Lines 47-51 for one item; the state is [(seen, out)]. *)
Definition uniq_step (st : gset (list N) * list str) (item : str)
  : gset (list N) * list str :=
  let '(seen, out) := st in
  if bool_decide (item ∈ seen) then st
  else ({[item]} ∪ seen, out ++ [item]).

Definition _uniq_keep_order (items : list str) : list str :=
  snd (fold_left uniq_step items (∅, [])).

End Globis.

Section UniqKeepOrder.

(** The first occurrences of the items, in order. *)
Fixpoint first_occs (l : list str) : list str :=
  match l with
  | [] => []
  | x :: r => x :: List.filter (fun y => negb (str_eqb y x)) (first_occs r)
  end.

Lemma list_filter_filter {A} (f g : A -> bool) (l : list A) :
  List.filter f (List.filter g l) = List.filter (fun y => g y && f y) l.
Proof.
  induction l as [|x l IH]; [reflexivity|]. simpl.
  destruct (g x); simpl; [destruct (f x)|]; rewrite ?IH; reflexivity.
Qed.

Lemma uniq_loop items :
  forall (seen : gset (list N)) (out : list str),
    snd (fold_left Globis.uniq_step items (seen, out))
    = out ++ List.filter (fun y => negb (bool_decide (y ∈ seen)))
               (first_occs items).
Proof.
  induction items as [|x items IH]; intros seen out.
  - simpl. rewrite app_nil_r. reflexivity.
  - simpl fold_left. simpl first_occs. simpl List.filter.
    destruct (decide (x ∈ seen)) as [Hin|Hnin].
    + rewrite (bool_decide_eq_true_2 _ Hin). simpl negb. cbv iota.
      rewrite IH, list_filter_filter. f_equal. apply filter_ext.
      intros y. apply bool_iff_eq. unfold str_eqb.
      rewrite andb_true_iff, !negb_true_iff, !bool_decide_eq_false.
      split; [|tauto]. intros Hy. split; [congruence | exact Hy].
    + rewrite (bool_decide_eq_false_2 _ Hnin). simpl negb. cbv iota.
      rewrite IH, list_filter_filter, <- app_assoc. simpl app.
      f_equal. f_equal. apply filter_ext. intros y. apply bool_iff_eq.
      unfold str_eqb.
      rewrite andb_true_iff, !negb_true_iff, !bool_decide_eq_false.
      rewrite elem_of_union, elem_of_singleton. tauto.
Qed.

Lemma uniq_first_occs items : Globis._uniq_keep_order items = first_occs items.
Proof.
  unfold Globis._uniq_keep_order. rewrite uniq_loop. simpl app.
  induction (first_occs items) as [|y l IH]; [reflexivity|]. simpl.
  rewrite bool_decide_eq_false_2 by set_solver. simpl. f_equal. exact IH.
Qed.

Lemma first_occs_elem l : forall y, In y (first_occs l) <-> In y l.
Proof.
  induction l as [|x r IH]; intros y; [reflexivity|]. simpl.
  rewrite filter_In, IH. unfold str_eqb. split.
  - intros [H|[H _]]; auto.
  - intros [H|H]; [auto|]. destruct (decide (y = x)) as [->|Hne]; [auto|].
    right. split; [exact H|]. rewrite (bool_decide_eq_false_2 _ Hne).
    reflexivity.
Qed.

Lemma first_occs_nodup l : NoDup (first_occs l).
Proof.
  induction l as [|x r IH]; simpl; [constructor|]. apply NoDup_cons. split.
  - intros Hin. apply list_elem_of_In, filter_In in Hin. destruct Hin as [_ H].
    unfold str_eqb in H. rewrite bool_decide_eq_true_2 in H by reflexivity.
    discriminate.
  - eapply sublist_NoDup; [exact IH | apply filter_sublist].
Qed.

Lemma first_occs_sublist l : first_occs l `sublist_of` l.
Proof.
  induction l as [|x r IH]; simpl; [constructor|]. apply sublist_skip.
  etransitivity; [apply filter_sublist | exact IH].
Qed.

Lemma first_occs_fixed l : NoDup l -> first_occs l = l.
Proof.
  induction 1 as [|x r Hx Hnd IH]; [reflexivity|]. simpl. rewrite IH.
  f_equal. clear IH Hnd. induction r as [|y r IH]; [reflexivity|].
  apply not_elem_of_cons in Hx. destruct Hx as [Hne Hx]. simpl.
  unfold str_eqb at 1. rewrite bool_decide_eq_false_2 by congruence.
  simpl. f_equal. apply IH, Hx.
Qed.

Lemma first_occs_app a b :
  first_occs (a ++ b)
  = first_occs a
    ++ List.filter (fun y => negb (bool_decide (y ∈ a))) (first_occs b).
Proof.
  induction a as [|x a IH].
  - simpl. induction (first_occs b) as [|y l IHl]; [reflexivity|]. simpl.
    f_equal. exact IHl.
  - simpl. f_equal. rewrite IH, List.filter_app, list_filter_filter. f_equal.
    apply filter_ext. intros y. apply bool_iff_eq. unfold str_eqb.
    rewrite andb_true_iff, !negb_true_iff, !bool_decide_eq_false.
    rewrite elem_of_cons. tauto.
Qed.

(** X21: [_uniq_keep_order] keeps the first occurrence of every item, in the
    order of the input: the result has no repetition, the items of the
    input and no other, is a subsequence of the input, and a list without
    repetition comes back as it is, so that a second application changes
    nothing. *)
Theorem uniq_keep_order_spec items :
  NoDup (Globis._uniq_keep_order items)
  /\ (forall x, x ∈ Globis._uniq_keep_order items <-> x ∈ items)
  /\ Globis._uniq_keep_order items `sublist_of` items
  /\ (NoDup items -> Globis._uniq_keep_order items = items)
  /\ Globis._uniq_keep_order (Globis._uniq_keep_order items)
     = Globis._uniq_keep_order items
  /\ hd_error (Globis._uniq_keep_order items) = hd_error items.
Proof.
  rewrite !uniq_first_occs. split; [apply first_occs_nodup|].
  split; [intros x; rewrite !list_elem_of_In; apply first_occs_elem|].
  split; [apply first_occs_sublist|]. split; [apply first_occs_fixed|].
  split; [apply first_occs_fixed, first_occs_nodup|].
  destruct items; reflexivity.
Qed.

(** X22: The lists are built up page by page and category by category:
    removing repetitions from a list in two parts keeps the first part's
    result and adds from the second what the first part did not have, and
    removing them from the per-category results put together gives what
    removing them from all the terms put together gives. *)
Theorem uniq_keep_order_concat :
  (forall a b,
     Globis._uniq_keep_order (a ++ b)
     = Globis._uniq_keep_order a
       ++ List.filter (fun y => negb (bool_decide (y ∈ a)))
            (Globis._uniq_keep_order b))
  /\ forall ls : list (list str),
       Globis._uniq_keep_order (concat (map Globis._uniq_keep_order ls))
       = Globis._uniq_keep_order (concat ls).
Proof.
  split.
  - intros a b. rewrite !uniq_first_occs. apply first_occs_app.
  - intros ls. rewrite uniq_first_occs.
    rewrite (map_ext _ _ uniq_first_occs), uniq_first_occs.
    induction ls as [|a ls IH]; [reflexivity|]. simpl.
    rewrite !first_occs_app, IH, (first_occs_fixed _ (first_occs_nodup a)).
    f_equal. apply filter_ext. intros y. f_equal.
    apply bool_decide_ext. rewrite !list_elem_of_In. apply first_occs_elem.
Qed.

End UniqKeepOrder.

Lemma uniq_keep_order_spec_witness :
  Globis._uniq_keep_order [u "ROE"; u "ROA"] = [u "ROE"; u "ROA"].
Proof.
  apply (proj1 (proj2 (proj2 (proj2 (uniq_keep_order_spec [u "ROE"; u "ROA"]))))).
  apply (bool_decide_unpack _). vm_compute. exact I.
Defined.

(** ** A whole run of pass 1 *)

Section ExtractBatch.

Context (U : UnicodeDB) (tokenize : str -> list Extract.Token).






End ExtractBatch.


(** ** Tokenizing a text piece by piece *)

Section Chunks.

Context (tokenize : str -> list Extract.Token).

Lemma slice_chunk (text : str) (S off : Z) :
  0 < S -> 0 <= off <= len text ->
  slice text off (off + S) = take (Z.to_nat S) (drop (Z.to_nat off) text).
Proof.
  intros HS Hoff. unfold slice, adjust. cbv zeta.
  destruct (off <? 0) eqn:E1; [apply Z.ltb_lt in E1; lia|].
  destruct (off + S <? 0) eqn:E2; [apply Z.ltb_lt in E2; lia|].
  replace (Z.max 0 (Z.min (len text) off)) with off by lia.
  replace (Z.max 0 (Z.min (len text) (off + S)))
    with (Z.min (len text) (off + S)) by lia.
  destruct (Z.le_ge_cases (len text) (off + S)) as [H|H].
  - rewrite Z.min_l by exact H.
    rewrite !firstn_all2; [reflexivity | |];
      rewrite length_drop; unfold len in *; lia.
  - rewrite Z.min_r by lia. f_equal. lia.
Qed.

Lemma chunks_concat {A} (s : nat) (l : list A) :
  forall m a,
    concat (map (fun k => take s (drop (k * s) l)) (seq a m))
    = take (m * s) (drop (a * s) l).
Proof.
  induction m as [|m IH]; intros a; [reflexivity|].
  simpl seq. simpl map. simpl concat. rewrite IH.
  replace (S a * s)%nat with (a * s + s)%nat by lia.
  rewrite <- drop_drop.
  replace (S m * s)%nat with (s + m * s)%nat by lia.
  apply take_take_drop.
Qed.

Lemma chunks_of (text : str) (S : Z) :
  0 < S ->
  let chunks := map (fun off => slice text off (off + S))
                  (range_step (len text) S) in
  concat chunks = text /\ Forall (fun c => 1 <= len c <= S) chunks.
Proof.
  intros HS. cbv zeta. unfold range_step. rewrite map_map.
  set (q := (len text + S - 1) / S).
  assert (Hq1 : q * S <= len text + S - 1).
  { unfold q. rewrite Z.mul_comm. apply Z.mul_div_le. exact HS. }
  assert (Hq2 : len text <= q * S).
  { pose proof (Z.div_mod (len text + S - 1) S ltac:(lia)) as Hd.
    pose proof (Z.mod_pos_bound (len text + S - 1) S HS) as Hm.
    fold q in Hd. nia. }
  assert (Hq0 : 0 <= q).
  { unfold q. apply Z.div_pos; unfold len; lia. }
  assert (Hk : forall k, In k (seq 0 (Z.to_nat q)) ->
            0 <= Z.of_nat k * S < len text).
  { intros k Hin. apply in_seq in Hin.
    assert (Z.of_nat k + 1 <= q) by lia. nia. }
  assert (Hmap : map (fun k => slice text (Z.of_nat k * S) (Z.of_nat k * S + S))
                   (seq 0 (Z.to_nat q))
                 = map (fun k => take (Z.to_nat S)
                                   (drop (k * Z.to_nat S) text))
                     (seq 0 (Z.to_nat q))).
  { apply map_ext_in. intros k Hin. specialize (Hk k Hin).
    rewrite slice_chunk by lia. f_equal. f_equal.
    rewrite Z2Nat.inj_mul, Nat2Z.id by lia. reflexivity. }
  rewrite Hmap. split.
  - rewrite chunks_concat. simpl drop. apply take_ge.
    unfold len in *. nia.
  - apply List.Forall_forall. intros c Hc. apply in_map_iff in Hc.
    destruct Hc as (k & <- & Hin). specialize (Hk k Hin).
    unfold len in *. rewrite length_take, length_drop. nia.
Qed.

(** X24: The text is tokenized in consecutive pieces of 10,000 characters (the
    last one may be shorter, none is empty) that together are the text;
    the tokens are those of the pieces, in order, so a run of tokens goes
    on from one piece to the next. A text of at most 10,000 characters is
    tokenized in one piece, and an empty text is not tokenized at all. *)
Theorem tokens_by_chunks text :
  let chunks := map (fun off => slice text off (off + 10000))
                  (range_step (len text) 10000) in
  Extract.tokens_of tokenize text = flat_map tokenize chunks
  /\ concat chunks = text
  /\ Forall (fun c => 1 <= len c <= 10000) chunks
  /\ (text <> [] -> len text <= 10000 ->
      Extract.tokens_of tokenize text = tokenize text)
  /\ Extract.tokens_of tokenize [] = [].
Proof.
  cbv zeta. destruct (chunks_of text 10000 eq_refl) as [Hc Hb].
  assert (E : Extract.tokens_of tokenize text
              = flat_map tokenize
                  (map (fun off => slice text off (off + 10000))
                     (range_step (len text) 10000))).
  { unfold Extract.tokens_of. generalize (range_step (len text) 10000).
    intros l. induction l as [|off l IH]; [reflexivity|].
    cbn [flat_map map]. rewrite IH. reflexivity. }
  split; [exact E|]. split; [exact Hc|]. split; [exact Hb|]. split.
  - intros Hne Hlen. rewrite E.
    assert (Hone : range_step (len text) 10000 = [0]).
    { unfold range_step.
      assert (Hq : (len text + 10000 - 1) / 10000 = 1).
      { symmetry. apply (Z.div_unique_pos _ _ 1 (len text - 1)).
        - destruct text; [congruence|]. unfold len in *. simpl length in *. lia.
        - lia. }
      rewrite Hq. reflexivity. }
    rewrite Hone in Hc |- *. simpl map in *. simpl concat in Hc.
    rewrite app_nil_r in Hc. rewrite Hc. simpl. apply app_nil_r.
  - reflexivity.
Qed.

End Chunks.

Lemma tokens_by_chunks_witness :
  Extract.tokens_of sample_tokenizer (u "売上高") = sample_tokenizer (u "売上高").
Proof.
  apply (proj1 (proj2 (proj2 (proj2 (tokens_by_chunks sample_tokenizer
                                       (u "売上高")))))).
  - discriminate.
  - vm_compute. discriminate.
Defined.
